(** * Photosynthesis simulator: the environment and growth engine

    A shallow embedding of the simulation core of [Photosynthesis/script.js]
    (the [state] object, [calculateEnvironment], [calculateRate],
    [updateSimulation] and the slider / pause handlers), followed by the
    properties of the specification that concern it.  The second half
    covers the code around the core: the display refresh, [drawSky], the
    fractal roots, and the bubbles, particles, clouds, fireflies, plant,
    grass and water of [draw].

    Numbers.  The JavaScript numbers of the script are modelled as real
    numbers: [Math.exp], [Math.abs], [Math.pow], [Math.min] and the p5.js
    functions [sin] and [map] are the mathematical functions, and [PI] is
    the real number.  The day counter and the values read from the sliders
    with [parseInt] are integers.

    Rounding.  The real numbers stand for the doubles of the script, and
    a bound stated below leaves room for the rounding of the operations.
    Two values depend on how a single result is rounded: the light at
    18:00, where [sin(PI)] is the sine of the double [Math.PI], and the
    temperature effect next to 25 degrees, where [Math.exp] returns the
    double 1.  For these the module [Float] gives the constant [PI] as the
    double it is, the nearest double of a real number, and [deriveLight]
    and [tempEffect] once more with the results of [sin] and [Math.exp]
    rounded.  The colours that [background] paints are rounded to whole
    channel values, as [p5.Color] does.

    Randomness.  Where the drawing code calls [random], the numbers in
    [0,1) that the generator returns are a sequence [rnd], and the index
    of the next number is passed along. *)

From Stdlib Require Import Reals Lra Lia ZArith List Bool.
From Stdlib Require Import String DecimalString Sorted.
Import ListNotations.

Local Open Scope R_scope.

(** ** The state object (script.js, lines 2-17) *)

(** The strings ['None'], ['light'], ['co2'] and ['temp'] stored in
    [state.limitingFactor]. *)
Inductive Factor : Set :=
| FNone
| FLight
| FCo2
| FTemp.

Record State : Type := mkState {
  time : R;            (* 0-24 hours *)
  day : Z;             (* day counter *)
  autoPlay : bool;     (* cycle runs automatically *)
  light : R;           (* 0-100, derived *)
  co2 : R;             (* 0-100, manual *)
  temp : R;            (* 0-50, derived or manual *)
  growthRate : R;      (* 0-100 % *)
  biomass : R;         (* starting size 15 *)
  limitingFactor : Factor
}.

Definition state : State :=
  {| time := 12; day := 1; autoPlay := true;
     light := 100; co2 := 40; temp := 25;
     growthRate := 0; biomass := 15; limitingFactor := FNone |}.

(** Field assignments, one per mutated field. *)
Definition set_time (st : State) (v : R) : State :=
  mkState v (day st) (autoPlay st) (light st) (co2 st) (temp st)
          (growthRate st) (biomass st) (limitingFactor st).
Definition set_day (st : State) (v : Z) : State :=
  mkState (time st) v (autoPlay st) (light st) (co2 st) (temp st)
          (growthRate st) (biomass st) (limitingFactor st).
Definition set_autoPlay (st : State) (v : bool) : State :=
  mkState (time st) (day st) v (light st) (co2 st) (temp st)
          (growthRate st) (biomass st) (limitingFactor st).
Definition set_light (st : State) (v : R) : State :=
  mkState (time st) (day st) (autoPlay st) v (co2 st) (temp st)
          (growthRate st) (biomass st) (limitingFactor st).
Definition set_co2 (st : State) (v : R) : State :=
  mkState (time st) (day st) (autoPlay st) (light st) v (temp st)
          (growthRate st) (biomass st) (limitingFactor st).
Definition set_temp (st : State) (v : R) : State :=
  mkState (time st) (day st) (autoPlay st) (light st) (co2 st) v
          (growthRate st) (biomass st) (limitingFactor st).
Definition set_growthRate (st : State) (v : R) : State :=
  mkState (time st) (day st) (autoPlay st) (light st) (co2 st) (temp st)
          v (biomass st) (limitingFactor st).
Definition set_biomass (st : State) (v : R) : State :=
  mkState (time st) (day st) (autoPlay st) (light st) (co2 st) (temp st)
          (growthRate st) v (limitingFactor st).
Definition set_limitingFactor (st : State) (v : Factor) : State :=
  mkState (time st) (day st) (autoPlay st) (light st) (co2 st) (temp st)
          (growthRate st) (biomass st) v.

(** ** Constants (lines 20-21) *)

Definition OPTIMAL_TEMP : R := 25.
Definition MAX_BIOMASS : R := 200.

(** ** The p5.js helpers the script calls *)

Module P5.

Definition TWO_PI : R := 2 * PI.

(** [map(n, start1, stop1, start2, stop2)]: linear re-mapping of [n]
    from one range onto another, without clamping. *)
Definition map (n start1 stop1 start2 stop2 : R) : R :=
  (n - start1) / (stop1 - start1) * (stop2 - start2) + start2.

End P5.

(** [Math.min] of three arguments. *)
Definition min3 (a b c : R) : R := Rmin (Rmin a b) c.

(** ** calculateEnvironment (lines 62-95) *)

(** Lines 65-69: the time increment and the wrap at midnight. *)
Definition advanceClock (st : State) : State :=
  let st1 := set_time st (time st + 0.02) in
  if Rge_dec (time st1) 24
  then set_day (set_time st1 0) (day st1 + 1)
  else st1.

(** Lines 72-78 and the clamp of line 93: the light computed from the
    (already advanced) [state.time]. *)
Definition deriveLight (t : R) : R :=
  let l :=
    if Rge_dec t 6 then
      if Rle_dec t 18 then sin (P5.map t 6 18 0 PI) * 100 else 0
    else 0 in
  if Rlt_dec l 0 then 0 else l.

(** Lines 89-90: the temperature computed from [state.time].  (The locals
    [tempOffset] and [tempT] of lines 82 and 87 are never read.) *)
Definition deriveTemperature (t : R) : R :=
  let dailyVar := sin (P5.map (t - 8) 0 24 0 P5.TWO_PI) * 10 in
  20 + dailyVar.

Definition calculateEnvironment (st : State) : State :=
  if autoPlay st then
    let st1 := advanceClock st in
    let st2 := set_light st1 (deriveLight (time st1)) in
    set_temp st2 (deriveTemperature (time st2))
  else st.

(** ** calculateRate (lines 97-119) *)

Definition lightEffect (st : State) : R := 100 * (light st / (light st + 20)).
Definition co2Effect (st : State) : R := 100 * (co2 st / (co2 st + 20)).
Definition tempEffect (st : State) : R :=
  let tempDiff := Rabs (temp st - OPTIMAL_TEMP) in
  let e := 100 * exp (- (tempDiff ^ 2 / 200)) in
  if Rlt_dec e 1 then 0 else e.

(** The function writes [growthRate] and [limitingFactor] and returns the
    rate; the result is the new state paired with the returned value. *)
Definition calculateRate (st : State) : State * R :=
  let rate := min3 (lightEffect st) (co2Effect st) (tempEffect st) in
  let rate := if Rlt_dec (light st) 1 then 0 else rate in
  let st1 := set_growthRate st rate in
  let st2 :=
    if Req_dec_T rate (lightEffect st) then set_limitingFactor st1 FLight
    else if Req_dec_T rate (co2Effect st) then set_limitingFactor st1 FCo2
    else set_limitingFactor st1 FTemp in
  (st2, rate).

(** ** The same computations in doubles *)

Module Float.

(** [Math.PI], which is also the constant [PI] of p5.js: the double
    nearest to pi, 884279719003555 / 2^48. *)
Definition PI : R := 884279719003555 / 281474976710656.

(** The binary exponent of [x], the whole part of its logarithm to the
    base 2; below 2^-1022 the doubles are evenly spaced. *)
Definition exponent (x : R) : Z :=
  Z.max (Int_part (ln (Rabs x) / ln 2)) (-1022).

(** The distance between neighbouring doubles around [x]: 52 binary
    digits below the leading one. *)
Definition ulp (x : R) : R := powerRZ 2 (exponent x - 52).

(** The nearest whole number, the even one of two that are equally
    near. *)
Definition nearest (y : R) : Z :=
  let f := Int_part y in
  if Rlt_dec (y - IZR f) (1 / 2) then f
  else if Rgt_dec (y - IZR f) (1 / 2) then (f + 1)%Z
  else if Z.even f then f else (f + 1)%Z.

(** The double nearest to [x] (for [x] within the range of the finite
    doubles). *)
Definition round (x : R) : R :=
  if Req_dec_T x 0 then 0 else IZR (nearest (x / ulp x)) * ulp x.

(** [Math.sin], which the [sin] of p5.js calls, and [Math.exp]: the
    double nearest to the value of the function.  (An engine may return a
    neighbouring double; at the arguments evaluated below, [PI], [PI / 2]
    and exponents next to 0, it returns this one.) *)
Definition sin (x : R) : R := round (Rtrigo_def.sin x).
Definition exp (x : R) : R := round (Rtrigo_def.exp x).

(** Lines 72-78 and 93 once more, with the double [PI] and the result of
    [sin] rounded.  The sums, products and quotients around them are left
    exact. *)
Definition deriveLight (t : R) : R :=
  let l :=
    if Rge_dec t 6 then
      if Rle_dec t 18 then sin (P5.map t 6 18 0 PI) * 100 else 0
    else 0 in
  if Rlt_dec l 0 then 0 else l.

(** Lines 102-104 once more, with the result of [Math.exp] rounded. *)
Definition tempEffect (st : State) : R :=
  let tempDiff := Rabs (temp st - OPTIMAL_TEMP) in
  let e := 100 * exp (- (tempDiff ^ 2 / 200)) in
  if Rlt_dec e 1 then 0 else e.

End Float.

(** ** updateSimulation (lines 121-133) *)

(** Lines 124-126: the biomass integration. *)
Definition integrateBiomass (currentBiomass rate : R) : R :=
  if Rgt_dec rate 0 then
    if Rlt_dec currentBiomass MAX_BIOMASS
    then currentBiomass + rate * 0.0005
    else currentBiomass
  else currentBiomass.

(** One frame.  The chart sampling of lines 128-132 writes only to the
    chart and is left out. *)
Definition updateSimulation (st : State) : State :=
  let st1 := calculateEnvironment st in
  let '(st2, rate) := calculateRate st1 in
  set_biomass st2 (integrateBiomass (biomass st2) rate).

(** ** The UI handlers (lines 164-186) *)

(** [handleManualInput]: the listener of the light and temperature
    sliders.  Its arguments are the integers [parseInt] reads from the
    three sliders. *)
Definition handleManualInput (sliderLight sliderCo2 sliderTemp : Z)
    (st : State) : State :=
  let st1 := set_autoPlay st false in
  let st2 := set_light st1 (IZR sliderLight) in
  let st3 := set_co2 st2 (IZR sliderCo2) in
  set_temp st3 (IZR sliderTemp).

(** The listener of the CO2 slider (lines 178-180). *)
Definition handleCo2Input (sliderCo2 : Z) (st : State) : State :=
  set_co2 st (IZR sliderCo2).

(** The listener of the pause button (lines 183-186). *)
Definition togglePause (st : State) : State :=
  set_autoPlay st (negb (autoPlay st)).

(** ** Runs: frames interleaved with user input *)

Inductive Event : Type :=
| Tick                                   (* one call of [draw] *)
| ManualInput (l c t : Z)                (* light or temperature slider moved *)
| Co2Input (c : Z)                       (* CO2 slider moved *)
| PauseClick.

Definition step (st : State) (e : Event) : State :=
  match e with
  | Tick => updateSimulation st
  | ManualInput l c t => handleManualInput l c t st
  | Co2Input c => handleCo2Input c st
  | PauseClick => togglePause st
  end.

Definition run (evs : list Event) (st : State) : State :=
  fold_left step evs st.

(** The slider ranges: light and CO2 in [0,100], temperature in [0,50]. *)
Definition valid_event (e : Event) : Prop :=
  match e with
  | Tick | PauseClick => True
  | ManualInput l c t =>
      (0 <= l <= 100)%Z /\ (0 <= c <= 100)%Z /\ (0 <= t <= 50)%Z
  | Co2Input c => (0 <= c <= 100)%Z
  end.

(** ** Concrete states and runs used below *)

(** Autoplay, one frame before midnight. *)
Definition lateEvening : State := set_time state 23.99.

(** Faint light, as derived just after dawn or just before dusk, with the
    initial CO2 and temperature. *)
Definition duskState : State := set_light state 0.5.

(** A temperature 81 doubles above 25 (the doubles around 25 are 2^-48
    apart): 25.000000000000288. *)
Definition nearPeak : State := set_temp state (25 + 81 / 2 ^ 48).

(** The light slider is set to 30 (CO2 100, temperature 25) and the
    simulation then runs for 6167 frames. *)
Definition overshootRun : list Event :=
  ManualInput 30 100 25 :: repeat Tick (Z.to_nat 6167).

(** The environment held by [overshootRun] after its first event. *)
Definition dimLight (st : State) : Prop :=
  autoPlay st = false /\ light st = 30 /\ co2 st = 100 /\ temp st = 25.

(** Autoplay from the initial state for 299 frames: the clock goes from
    12.00 to 17.98, the last frame before dusk. *)
Definition duskRun : list Event := repeat Tick 299.

(** ** The formulas as the specification words them *)

Module Spec.

(** [effectScore(value, halfSaturation = 20)]:
    [100 * value / (value + halfSaturation)]. *)
Definition effectScore (value : R) : R := 100 * value / (value + 20).

(** The Gaussian of [temperatureEffect(temp, optimal = 25)]:
    [100 * exp(-((temp - optimal)^2) / 200)]. *)
Definition gaussian (temp : R) : R :=
  100 * exp (- ((temp - 25) ^ 2) / 200).

(** [temperatureEffect]: the Gaussian, snapped to 0 below 1. *)
Definition temperatureEffect (temp : R) : R :=
  if Rlt_dec (gaussian temp) 1 then 0 else gaussian temp.

(** The limiting factor: the first of light, CO2 and temperature whose
    score equals the minimum of the three. *)
Definition limiting (lightScore co2Score tempScore : R) : Factor :=
  let m := min3 lightScore co2Score tempScore in
  if Req_dec_T lightScore m then FLight
  else if Req_dec_T co2Score m then FCo2
  else FTemp.

End Spec.

(** ** The display refresh (the [setInterval] callback, lines 188-231) *)

Module Display.

(** Lines 214-226: the text of the limiting-factor label.  A
    [limitingFactor] that is neither ['light'] nor ['co2'] takes the last
    branch. *)
Definition limitText (st : State) : string :=
  if Rlt_dec (growthRate st) 95 then
    match limitingFactor st with
    | FLight => "Light Intensity"
    | FCo2 => "CO₂ Concentration"
    | _ => "Temperature"
    end
  else "None".

(** Lines 212-225: the control group that receives the class
    ['limiting-factor'], if any. *)
Definition highlighted (st : State) : option Factor :=
  if Rlt_dec (growthRate st) 95 then
    match limitingFactor st with
    | FLight => Some FLight
    | FCo2 => Some FCo2
    | _ => Some FTemp
    end
  else None.

(** Lines 202-204: the clock.  [Math.floor] is the integer part; a
    number in a template literal is printed in decimal. *)
Definition clockH (st : State) : Z := Int_part (time st).
Definition clockM (st : State) : Z :=
  Int_part ((time st - IZR (clockH st)) * 60).

Definition showZ (z : Z) : string := NilZero.string_of_int (Z.to_int z).

Definition mStr (st : State) : string :=
  let m := clockM st in
  if (m <? 10)%Z then ("0" ++ showZ m)%string else showZ m.

(** Lines 197, 199 and 210: the whole numbers shown for light, temperature
    and biomass. *)
Definition shownLight (st : State) : Z := Int_part (light st).
Definition shownTemp (st : State) : Z := Int_part (temp st).
Definition shownBiomass (st : State) : Z := Int_part (biomass st).

End Display.

(** ** Ranges of the state fields *)

(** The ranges noted beside the fields of [state], with the largest rate
    the light score allows. *)
Definition inRange (st : State) : Prop :=
  0 <= time st < 24 /\ 0 <= light st <= 100 /\ 0 <= co2 st <= 100 /\
  0 <= temp st <= 50 /\ 0 <= growthRate st <= 250 / 3 /\ (1 <= day st)%Z.

Definition isTick (e : Event) : bool :=
  match e with Tick => true | _ => false end.

(** The number of frames in a run. *)
Definition ticks (evs : list Event) : nat :=
  List.length (filter isTick evs).

(** ** Further p5.js helpers, used by the drawing code *)

Module P5Draw.

(** [constrain(n, low, high)]. *)
Definition constrain (n low high : R) : R := Rmax (Rmin n high) low.

(** [map(n, start1, stop1, start2, stop2, true)]: the re-mapping with the
    result kept within the target range. *)
Definition mapWithin (n start1 stop1 start2 stop2 : R) : R :=
  let newval := P5.map n start1 stop1 start2 stop2 in
  if Rlt_dec start2 stop2 then constrain newval start2 stop2
  else constrain newval stop2 start2.

(** [lerp(start, stop, amt)]. *)
Definition lerp (start stop amt : R) : R := amt * (stop - start) + start.

(** A colour made by [color(r, g, b)]. *)
Definition Color : Type := (R * R * R)%type.
Definition red (c : Color) : R := fst (fst c).
Definition green (c : Color) : R := snd (fst c).
Definition blue (c : Color) : R := snd c.

(** [lerpColor(c1, c2, amt)]: [amt] is first cut to [0,1], then every
    channel is interpolated. *)
Definition lerpColor (c1 c2 : Color) (amt : R) : Color :=
  let amt := Rmax (Rmin amt 1) 0 in
  (lerp (red c1) (red c2) amt,
   lerp (green c1) (green c2) amt,
   lerp (blue c1) (blue c2) amt).

(** [Math.round]: the nearest whole number, the upper one of two that
    are equally near. *)
Definition round (x : R) : Z := Int_part (x + 1 / 2).

(** The [levels] of a [p5.Color]: its channels as whole numbers.  These
    are what [background] and [fill] paint when they are handed a colour
    object. *)
Definition levels (c : Color) : Z * Z * Z :=
  (round (red c), round (green c), round (blue c)).

(** [radians(degrees)]. *)
Definition radians (degrees : R) : R := degrees * PI / 180.

(** [random(min, max)] for the number [u] in [0,1) that the generator
    returns: the bounds are swapped when [min > max]. *)
Definition between (min max u : R) : R :=
  if Rgt_dec min max then u * (min - max) + max else u * (max - min) + min.

End P5Draw.

(** ** drawSky (lines 407-467) *)

Module Sky.

Import P5Draw.

Definition cNight : Color := (20, 24, 82).
Definition cDawn : Color := (253, 184, 19).
Definition cDay : Color := (135, 206, 235).

(** Lines 415-422: the background colour for the time [t]. *)
Definition skyColor (t : R) : Color :=
  if Rlt_dec t 5 then cNight
  else if Rlt_dec t 7 then lerpColor cNight cDawn (P5.map t 5 7 0 1)
  else if Rlt_dec t 10 then lerpColor cDawn cDay (P5.map t 7 10 0 1)
  else if Rlt_dec t 16 then cDay
  else if Rlt_dec t 19 then lerpColor cDay cDawn (P5.map t 16 19 0 1)
  else if Rlt_dec t 21 then lerpColor cDawn cNight (P5.map t 19 21 0 1)
  else cNight.

(** Line 424, [background(skyColor)]: the channel values painted at the
    time [t]. *)
Definition background (t : R) : Z * Z * Z := levels (skyColor t).
Definition paintedRed (t : R) : Z := fst (fst (background t)).
Definition paintedGreen (t : R) : Z := snd (fst (background t)).
Definition paintedBlue (t : R) : Z := snd (background t).

(** Lines 426-449: the centre of the sun's circle, when it is drawn. *)
Definition sunPos (width height t : R) : option (R * R) :=
  let cx := width / 2 in
  let radiusX := width * 0.45 in
  let radiusY := height * 0.75 in
  if Rgt_dec t 5 then
    if Rlt_dec t 19 then
      let sunAngle := P5.map t 6 18 PI (2 * PI) in
      Some (cx + cos sunAngle * radiusX, height * 0.9 + sin sunAngle * radiusY)
    else None
  else None.

(** Lines 451-466: the centre of the moon's circle, when it is drawn. *)
Definition moonPos (width height t : R) : option (R * R) :=
  let cx := width / 2 in
  let radiusX := width * 0.45 in
  let radiusY := height * 0.75 in
  let visible :=
    if Rge_dec t 18 then true else if Rle_dec t 6 then true else false in
  if visible then
    let moonTime := if Rle_dec t 6 then t + 24 else t in
    let moonAngle := P5.map moonTime 18 30 PI (2 * PI) in
    Some (cx + cos moonAngle * radiusX, height * 0.9 + sin moonAngle * radiusY)
  else None.

End Sky.

(** The background colour written out segment by segment: constant at
    night and by day, linear in the time during the four transitions. *)
Definition skyLinear (t : R) : P5Draw.Color :=
  if Rlt_dec t 5 then (20, 24, 82)
  else if Rlt_dec t 7 then
    (20 + 233 * ((t - 5) / 2), 24 + 160 * ((t - 5) / 2),
     82 - 63 * ((t - 5) / 2))
  else if Rlt_dec t 10 then
    (253 - 118 * ((t - 7) / 3), 184 + 22 * ((t - 7) / 3),
     19 + 216 * ((t - 7) / 3))
  else if Rlt_dec t 16 then (135, 206, 235)
  else if Rlt_dec t 19 then
    (135 + 118 * ((t - 16) / 3), 206 - 22 * ((t - 16) / 3),
     235 - 216 * ((t - 16) / 3))
  else if Rlt_dec t 21 then
    (253 - 233 * ((t - 19) / 2), 184 - 160 * ((t - 19) / 2),
     19 + 63 * ((t - 19) / 2))
  else (20, 24, 82).

(** ** The fractal roots (lines 475-516) *)

Module Roots.

(** An object of class [RootBranch]. *)
#[local] Unset Elimination Schemes.
Inductive RootBranch : Type := mkRootBranch {
  x : R; y : R; angle : R; weight : R; len : R;
  children : list RootBranch;
  endX : R; endY : R
}.
#[local] Set Elimination Schemes.

(** [drawFractalRoots(node, energy)]: the result lists the branches whose
    line is drawn, in drawing order. *)
Fixpoint drawFractalRoots (node : RootBranch) (energy : R) : list RootBranch :=
  if Rle_dec energy 0 then []
  else
    node ::
    (let cost := len node in
     let remainingEnergy := energy - cost in
     if Rgt_dec remainingEnergy 0 then
       match node with
       | mkRootBranch _ _ _ _ _ cs _ _ =>
           flat_map (fun child => drawFractalRoots child remainingEnergy) cs
       end
     else []).

(** Every branch of a tree, parents before children. *)
Fixpoint allBranches (node : RootBranch) : list RootBranch :=
  node ::
  match node with
  | mkRootBranch _ _ _ _ _ cs _ _ => flat_map allBranches cs
  end.

(** The number of levels of a tree. *)
Fixpoint levels (node : RootBranch) : nat :=
  S match node with
    | mkRootBranch _ _ _ _ _ cs _ _ =>
        fold_right (fun c m => Nat.max (levels c) m) O cs
    end.

(** The shape the constructor gives a tree: the end point follows from
    start, angle and length; a branch of weight at most 0.5 has no
    children and a heavier one has one to three; every child starts where
    its parent ends, weighs 0.7 times as much, is between 0.7 and 0.9
    times as long and is turned by at most 50 degrees. *)
Fixpoint grown (node : RootBranch) : Prop :=
  match node with
  | mkRootBranch x y angle weight len cs endX endY =>
      endX = x + cos (P5Draw.radians angle) * len /\
      endY = y + sin (P5Draw.radians angle) * len /\
      (weight <= 0.5 -> cs = []) /\
      (0.5 < weight -> (1 <= List.length cs <= 3)%nat) /\
      (fix each (l : list RootBranch) : Prop :=
         match l with
         | [] => True
         | c :: l' =>
             (Roots.x c = endX /\ Roots.y c = endY /\
              Roots.weight c = weight * 0.7 /\
              len * 0.7 <= Roots.len c <= len * 0.9 /\
              Rabs (Roots.angle c - angle) <= 50 /\
              grown c) /\ each l'
         end) cs
  end.

(** The constructor.  [rnd] is the sequence of numbers in [0,1) behind
    p5's [random]; the index of the next number is threaded through the
    calls.  The recursion on the weight is cut by [fuel]. *)
Section Constructor.

Variable rnd : nat -> R.

(** [random(lo, hi)] and [random(hi)]. *)
Definition random (lo hi : R) (k : nat) : R * nat :=
  (P5Draw.between lo hi (rnd k), S k).

Definition random1 (hi : R) (k : nat) : R * nat :=
  (rnd k * hi, S k).

(** The loop of lines 489-497; [todo] counts the iterations left. *)
Definition spawnChildren
    (build : R -> R -> R -> R -> R -> nat -> option (RootBranch * nat))
    (endX endY angle weight len : R)
  : nat -> nat -> list RootBranch -> option (list RootBranch * nat) :=
  fix loop (todo : nat) (k : nat) (children : list RootBranch) :=
    match todo with
    | O => Some (children, k)
    | S todo' =>
        let newWeight := weight * 0.7 in
        let '(r, k) := random 0.7 0.9 k in
        let newLen := len * r in
        let '(angleOffset, k) := random (-35) 35 k in
        let '(angleOffset, k) :=
          if Rlt_dec weight 2 then random (-50) 50 k else (angleOffset, k) in
        match build endX endY (angle + angleOffset) newWeight newLen k with
        | Some (child, k) => loop todo' k (children ++ [child])
        | None => None
        end
    end.

(** [new RootBranch(x, y, angle, weight, len)] (lines 477-499). *)
Fixpoint newRootBranch (fuel : nat) (x y angle weight len : R) (k : nat)
  : option (RootBranch * nat) :=
  match fuel with
  | O => None
  | S fuel' =>
      let endX := x + cos (P5Draw.radians angle) * len in
      let endY := y + sin (P5Draw.radians angle) * len in
      if Rgt_dec weight 0.5 then
        let '(r, k) := random 1 4 k in
        let numChildren := Z.to_nat (Int_part r) in
        match spawnChildren (newRootBranch fuel') endX endY angle weight len
                numChildren k [] with
        | Some (children, k) =>
            Some (mkRootBranch x y angle weight len children endX endY, k)
        | None => None
        end
      else Some (mkRootBranch x y angle weight len [] endX endY, k)
  end.

End Constructor.

End Roots.

(** Induction over a tree and, with it, over all its children. *)
Section RootBranch_induction.
Variable P : Roots.RootBranch -> Prop.
Hypothesis node_case :
  forall x y angle weight len cs endX endY,
    Forall P cs -> P (Roots.mkRootBranch x y angle weight len cs endX endY).

Fixpoint RootBranch_forall_ind (node : Roots.RootBranch) : P node :=
  match node with
  | Roots.mkRootBranch x y angle weight len cs endX endY =>
      node_case x y angle weight len cs endX endY
        ((fix each (l : list Roots.RootBranch) : Forall P l :=
            match l with
            | [] => Forall_nil P
            | c :: l' => Forall_cons c (RootBranch_forall_ind c) (each l')
            end) cs)
  end.
End RootBranch_induction.

(** What [Roots.grown] asks of a child, given the parent's fields. *)
Definition childOf (endX endY angle weight len : R) (c : Roots.RootBranch) : Prop :=
  Roots.x c = endX /\ Roots.y c = endY /\
  Roots.weight c = weight * 0.7 /\
  len * 0.7 <= Roots.len c <= len * 0.9 /\
  Rabs (Roots.angle c - angle) <= 50 /\
  Roots.grown c.

(** [build] returns a well-shaped tree for every weight that [n] further
    factors of 0.7 bring to 0.5 or below. *)
Definition builds
    (build : R -> R -> R -> R -> R -> nat -> option (Roots.RootBranch * nat))
    (n : nat) : Prop :=
  forall x y a w l k, 0 <= l -> w * 0.7 ^ n <= 0.5 ->
    exists t k', build x y a w l k = Some (t, k') /\
      Roots.x t = x /\ Roots.y t = y /\ Roots.angle t = a /\
      Roots.weight t = w /\ Roots.len t = l /\ Roots.grown t /\
      (Roots.levels t <= S n)%nat.

(** 1 + 3 + 9 + ... : the most branches [n] levels can hold. *)
Fixpoint branchBound (n : nat) : nat :=
  match n with
  | O => O
  | S n' => S (3 * branchBound n')
  end.

(** ** draw (lines 333-405) *)

Module Draw.

(** Line 351: the energy handed to [drawFractalRoots]. *)
Definition rootEnergy (st : State) : R := P5.map (biomass st) 0 200 0 800.

End Draw.

(** ** The oxygen bubbles (class [Bubble], lines 580-585, and lines
    372-388 of [draw]) *)

Module Bubbles.


Record Bubble : Type := mkBubble {
  x : R; y : R; vx : R; vy : R; size : R; alpha : R
}.

(** [new Bubble(x, y)]; the random numbers are drawn in the order of the
    assignments. *)
Definition newBubble (rnd : nat -> R) (x y : R) (k : nat) : Bubble * nat :=
  let '(r, k) := Roots.random rnd (-10) 10 k in
  let bx := x + r in
  let '(r, k) := Roots.random rnd (-10) 10 k in
  let by_ := y + r in
  let '(bvx, k) := Roots.random rnd (-0.5) 0.5 k in
  let '(bvy, k) := Roots.random rnd (-1) (-2.5) k in
  let '(bsize, k) := Roots.random rnd 4 8 k in
  (mkBubble bx by_ bvx bvy bsize 255, k).

(** [update()], for the current [frameCount]. *)
Definition update (frameCount : R) (b : Bubble) : Bubble :=
  mkBubble (x b + vx b + sin (frameCount * 0.1) * 0.5) (y b + vy b)
           (vx b) (vy b) (size b) (alpha b - 2).

Definition isDead (b : Bubble) : bool :=
  if Rlt_dec (alpha b) 0 then true else false.

(** The array after the object at index [i] has changed. *)
Definition replaceAt (i : nat) (b : Bubble) (l : list Bubble) : list Bubble :=
  firstn i l ++ b :: skipn (S i) l.

(** [splice(i, 1)]. *)
Definition splice1 (i : nat) (l : list Bubble) : list Bubble :=
  firstn i l ++ skipn (S i) l.

(** Lines 384-388: the loop from the last index down to 0.  [n] is the
    number of indices still to visit, so the index visited next is
    [n - 1]; reading an index that is not in the array ends the run with
    [None]. *)
Fixpoint sweep (frameCount : R) (n : nat) (bubbles : list Bubble)
  : option (list Bubble) :=
  match n with
  | O => Some bubbles
  | S i =>
      match nth_error bubbles i with
      | None => None
      | Some b =>
          let b' := update frameCount b in
          let bubbles := replaceAt i b' bubbles in
          if isDead b' then sweep frameCount i (splice1 i bubbles)
          else sweep frameCount i bubbles
      end
  end.

(** Lines 373-382: a bubble may be added. *)
Definition spawnBubble (rnd : nat -> R) (width height : R) (st : State)
    (bubbles : list Bubble) (k : nat) : list Bubble * nat :=
  let '(r, k) := Roots.random1 rnd 100 k in
  if Rlt_dec r (growthRate st * 0.4) then
    let plantHeight := biomass st * 1.5 in
    let plantHeight := if Rlt_dec plantHeight 20 then 20 else plantHeight in
    let xVar := 10 + plantHeight * 0.5 in
    let '(r, k) := Roots.random rnd (- xVar) xVar k in
    let spawnX := width / 2 + r in
    let '(r, k) := Roots.random rnd 10 plantHeight k in
    let spawnY := height - 120 - r in
    let '(b, k) := newBubble rnd spawnX spawnY k in
    (bubbles ++ [b], k)
  else (bubbles, k).

(** The bubble part of one [draw]. *)
Definition frame (rnd : nat -> R) (width height frameCount : R) (st : State)
    (bubbles : list Bubble) (k : nat) : option (list Bubble * nat) :=
  let '(bubbles, k) := spawnBubble rnd width height st bubbles k in
  match sweep frameCount (List.length bubbles) bubbles with
  | Some bubbles => Some (bubbles, k)
  | None => None
  end.

(** Successive frames, each with its [frameCount] and the state it
    sees. *)
Fixpoint frames (rnd : nat -> R) (width height : R)
    (inputs : list (R * State)) (bubbles : list Bubble) (k : nat)
  : option (list Bubble * nat) :=
  match inputs with
  | [] => Some (bubbles, k)
  | (frameCount, st) :: rest =>
      match frame rnd width height frameCount st bubbles k with
      | Some (bubbles, k) => frames rnd width height rest bubbles k
      | None => None
      end
  end.

End Bubbles.

(** Not removed by the loop. *)
Definition alive (b : Bubbles.Bubble) : bool := negb (Bubbles.isDead b).

(** The later bubble is at least one step of fading younger. *)
Definition spaced (b c : Bubbles.Bubble) : Prop :=
  Bubbles.alpha b + 2 <= Bubbles.alpha c.

(** What the bubble array looks like between two frames. *)
Definition orderly (l : list Bubbles.Bubble) : Prop :=
  StronglySorted spaced l /\
  Forall (fun b => 0 <= Bubbles.alpha b <= 253) l.

(** After [n] frames without a new bubble. *)
Definition fading (n : nat) (l : list Bubbles.Bubble) : Prop :=
  Forall (fun b => 0 <= Bubbles.alpha b <= 253 - 2 * INR n) l.

(** ** The CO2 particles (class [Particle], lines 610-615, and lines
    390-395 of [draw]) *)

Module Particles.


Record Particle : Type := mkParticle {
  x : R; y : R; vx : R; vy : R; alpha : R; size : R
}.

(** [reset()]. *)
Definition reset (rnd : nat -> R) (width height : R) (k : nat)
  : Particle * nat :=
  let '(px, k) := Roots.random1 rnd width k in
  let '(py, k) := Roots.random rnd (height - 50) (height - 150) k in
  let '(pvx, k) := Roots.random rnd (-0.2) 0.2 k in
  let '(pvy, k) := Roots.random rnd (-0.5) (-1.0) k in
  let '(palpha, k) := Roots.random rnd 50 150 k in
  let '(psize, k) := Roots.random rnd 2 5 k in
  (mkParticle px py pvx pvy palpha psize, k).

(** [update()]. *)
Definition update (rnd : nat -> R) (width height : R) (p : Particle) (k : nat)
  : Particle * nat :=
  let p1 := mkParticle (x p + vx p) (y p + vy p) (vx p) (vy p)
                       (alpha p - 0.5) (size p) in
  if Rlt_dec (alpha p1) 0 then reset rnd width height k else (p1, k).

(** The loop of lines 392-395.  [rest] holds the array from index [i]
    on; reading past its end ends the run with [None]. *)
Fixpoint co2Loop (rnd : nat -> R) (width height : R) (i : nat)
    (activeParticles : R) (rest : list Particle) (k : nat)
  : option (list Particle * nat) :=
  if Rlt_dec (INR i) activeParticles then
    match rest with
    | [] => None
    | p :: rest' =>
        let '(p', k) := update rnd width height p k in
        match co2Loop rnd width height (S i) activeParticles rest' k with
        | Some (ps, k) => Some (p' :: ps, k)
        | None => None
        end
    end
  else Some (rest, k).

(** Lines 391-395. *)
Definition drawCo2 (rnd : nat -> R) (width height : R) (st : State)
    (particles : list Particle) (k : nat) : option (list Particle * nat) :=
  let activeParticles :=
    P5.map (co2 st) 0 100 0 (INR (List.length particles)) in
  co2Loop rnd width height 0 activeParticles particles k.

End Particles.

(** The band a particle lives in: it fades from at most 150, drifts up by
    at most 1 per frame, and has risen by at most twice what it has
    faded. *)
Definition inBand (height : R) (p : Particles.Particle) : Prop :=
  0 <= Particles.alpha p <= 150 /\
  -1 <= Particles.vy p <= 0 /\
  Particles.y p <= height - 50 /\
  height - 450 <= Particles.y p - 2 * Particles.alpha p.

(** ** The clouds (class [Cloud], lines 617-621) *)

Module Clouds.


Record Cloud : Type := mkCloud { x : R; y : R; speed : R }.

(** The constructor. *)
Definition newCloud (rnd : nat -> R) (width height : R) (k : nat)
  : Cloud * nat :=
  let '(cx, k) := Roots.random1 rnd width k in
  let '(cy, k) := Roots.random rnd (height * 0.1) (height * 0.3) k in
  let '(cs, k) := Roots.random rnd 0.2 0.5 k in
  (mkCloud cx cy cs, k).

(** [update()]. *)
Definition update (width : R) (c : Cloud) : Cloud :=
  let x1 := x c + speed c in
  mkCloud (if Rgt_dec x1 (width + 100) then -100 else x1) (y c) (speed c).

End Clouds.

(** A cloud between its re-entry point and the right edge. *)
Definition onStage (width : R) (c : Clouds.Cloud) : Prop :=
  -100 <= Clouds.x c <= width + 100 /\ 0.2 <= Clouds.speed c <= 0.5.

(** ** The fireflies (lines 397-404 of [draw] and [Firefly.display],
    lines 603-607) *)

Module Fireflies.




End Fireflies.

(** ** The plant (lines 519-560) *)

Module Plant.


(** The calls of [drawLeaf] and [drawFlower] made by
    [drawOrganicPlant], with their arguments. *)
Inductive PlantCall : Type :=
| LeafCall (x y angleDeg sizeScale : R)
| FlowerCall (x y growth : R).

(** Line 520. *)
Definition scaleFactor (growth : R) : R := P5.map growth 0 200 0.2 1.5.

(** Lines 522-540: the calls, in order. *)
Definition drawOrganicPlant (frameCount growth : R) : list PlantCall :=
  let sway := sin (frameCount * 0.02) * 5 in
  (if Rgt_dec growth 20 then [LeafCall 0 (-40) (-45 + sway * 0.2) 1.0] else []) ++
  (if Rgt_dec growth 30 then [LeafCall 0 (-80) (45 + sway * 0.2) 1.2] else []) ++
  (if Rgt_dec growth 50 then [LeafCall (sway / 2) (-110) (-30 + sway * 0.3) 1.4]
   else []) ++
  (if Rgt_dec growth 80 then [LeafCall sway (-150) (0 + sway * 0.5) 1.5] else []) ++
  (if Rgt_dec growth 100 then
     [LeafCall 0 0 0 1.0] ++
     (if Rgt_dec growth 120 then [FlowerCall 0 0 growth] else []) ++
     [LeafCall 0 0 10 0.9] ++
     (if Rgt_dec growth 140 then [FlowerCall 0 0 growth] else []) ++
     (if Rgt_dec growth 160 then [FlowerCall 0 (-10) growth] else [])
   else []).

(** [drawFlower]: [None] when it returns early, otherwise the scale the
    flower is drawn with. *)
Definition drawFlower (growth : R) : option R :=
  let bloomSize := P5Draw.mapWithin growth 120 200 0 1 in
  if Rle_dec bloomSize 0 then None else Some bloomSize.

(** [drawLeaf], lines 545-546: the fill colour. *)
Definition leafColor (st : State) : P5Draw.Color :=
  let c1 := (100, 200, 100) in
  match limitingFactor st with
  | FNone => c1
  | _ => if Rlt_dec (growthRate st) 50 then (200, 180, 50) else c1
  end.

Definition isLeaf (c : PlantCall) : bool :=
  match c with LeafCall _ _ _ _ => true | FlowerCall _ _ _ => false end.

End Plant.

(** ** The grass ([GrassBlade.display], lines 564-572) *)

Module Grass.



End Grass.


(** ** The water particles (class [WaterParticle], lines 587-598) *)

Module Water.


Record WaterParticle : Type := mkWaterParticle {
  x : R; y : R; speed : R; active : bool
}.

(** [reset()]. *)
Definition reset (rnd : nat -> R) (width height : R) (k : nat)
  : WaterParticle * nat :=
  let '(wx, k) := Roots.random rnd (width / 2 - 60) (width / 2 + 60) k in
  let '(wy, k) := Roots.random rnd (height - 20) (height - 120) k in
  let '(ws, k) := Roots.random rnd 0.5 1.5 k in
  (mkWaterParticle wx wy ws true, k).

(** The distance to the foot of the stem, as [update] computes it. *)
Definition dist (width height : R) (p : WaterParticle) : R :=
  let targetX := width / 2 in
  let targetY := height - 120 in
  let dx := targetX - x p in
  let dy := targetY - y p in
  sqrt (dx * dx + dy * dy).

(** [update()]. *)
Definition update (rnd : nat -> R) (width height : R) (p : WaterParticle)
    (k : nat) : WaterParticle * nat :=
  let targetX := width / 2 in
  let targetY := height - 120 in
  let dx := targetX - x p in
  let dy := targetY - y p in
  let dist := sqrt (dx * dx + dy * dy) in
  let p1 := mkWaterParticle (x p + dx / dist * speed p)
                            (y p + dy / dist * speed p) (speed p) (active p) in
  if Rlt_dec dist 10 then reset rnd width height k else (p1, k).

End Water.


(** ** The mobile panels (lines 241-276) *)

Module Panels.

(** Whether each panel carries the class ['panel-active'] and each toggle
    button the class ['active']. *)
Record Panels : Type := mkPanels {
  panelEnv : bool; panelStats : bool;
  btnToggleEnv : bool; btnToggleStats : bool
}.

Definition closeAllPanels (p : Panels) : Panels :=
  mkPanels false false false false.

(** The click listener of [btnToggleEnv]. *)
Definition clickEnv (p : Panels) : Panels :=
  let isOpen := panelEnv p in
  let p := closeAllPanels p in
  if negb isOpen
  then mkPanels true (panelStats p) true (btnToggleStats p)
  else p.

(** The click listener of [btnToggleStats]. *)
Definition clickStats (p : Panels) : Panels :=
  let isOpen := panelStats p in
  let p := closeAllPanels p in
  if negb isOpen
  then mkPanels (panelEnv p) true (btnToggleEnv p) true
  else p.

Inductive Click : Type :=
| ToggleEnv
| ToggleStats
| CloseButton.

Definition click (p : Panels) (c : Click) : Panels :=
  match c with
  | ToggleEnv => clickEnv p
  | ToggleStats => clickStats p
  | CloseButton => closeAllPanels p
  end.

End Panels.

(** At most one panel is open, and each button is marked exactly when its
    panel is open. *)
Definition tidy (p : Panels.Panels) : Prop :=
  (Panels.panelEnv p && Panels.panelStats p = false) /\
  Panels.btnToggleEnv p = Panels.panelEnv p /\
  Panels.btnToggleStats p = Panels.panelStats p.

(** * Properties *)

(** ** Rounding to doubles *)

Lemma Int_part_eq (z : Z) (x : R) : IZR z <= x < IZR z + 1 -> Int_part x = z.
Proof. apply Zfloor_eq. Qed.

Lemma Int_part_bound (x : R) : IZR (Int_part x) <= x < IZR (Int_part x) + 1.
Proof. apply Zfloor_bound. Qed.

Lemma ln_2_pos : 0 < ln 2.
Proof. generalize ln_lt_2. lra. Qed.

Lemma ln_powerRZ_2 (k : Z) : ln (powerRZ 2 k) = IZR k * ln 2.
Proof.
  rewrite powerRZ_Rpower by lra. unfold Rpower. apply ln_exp.
Qed.

Lemma exponent_binade (k : Z) (x : R) :
  (-1022 <= k)%Z ->
  powerRZ 2 k <= Rabs x < powerRZ 2 (k + 1) ->
  Float.exponent x = k.
Proof.
  intros Hk [Hlo Hhi]. unfold Float.exponent.
  pose proof ln_2_pos as H2.
  pose proof (powerRZ_lt 2 k ltac:(lra)) as Hp.
  assert (Hx : 0 < Rabs x) by lra.
  assert (L1 : IZR k * ln 2 <= ln (Rabs x)).
  { rewrite <- ln_powerRZ_2. destruct Hlo as [Hlo | Hlo].
    - left. apply ln_increasing; assumption.
    - rewrite Hlo. right. reflexivity. }
  assert (L2 : ln (Rabs x) < IZR (k + 1) * ln 2).
  { rewrite <- ln_powerRZ_2. apply ln_increasing; assumption. }
  rewrite plus_IZR in L2.
  rewrite (Int_part_eq k).
  - lia.
  - split.
    + apply (Rmult_le_reg_r (ln 2)); [exact H2 |].
      unfold Rdiv. rewrite Rmult_assoc, Rinv_l by lra. lra.
    + apply (Rmult_lt_reg_r (ln 2)); [exact H2 |].
      unfold Rdiv. rewrite Rmult_assoc, Rinv_l by lra. lra.
Qed.

Lemma ulp_pos (x : R) : 0 < Float.ulp x.
Proof. apply powerRZ_lt. lra. Qed.

Lemma nearest_bound (y : R) :
  y - 1 / 2 <= IZR (Float.nearest y) <= y + 1 / 2.
Proof.
  unfold Float.nearest. cbv zeta.
  pose proof (Int_part_bound y) as Hb.
  destruct (Rlt_dec (y - IZR (Int_part y)) (1 / 2)); [lra |].
  destruct (Rgt_dec (y - IZR (Int_part y)) (1 / 2));
    [rewrite plus_IZR; lra |].
  destruct (Z.even (Int_part y)); [| rewrite plus_IZR]; lra.
Qed.

(** The nearest whole number of a number that is at most the whole
    number [n] is at most [n]. *)
Lemma nearest_le (y : R) (n : Z) : y <= IZR n -> (Float.nearest y <= n)%Z.
Proof.
  intros Hy. pose proof (nearest_bound y) as [_ Hb].
  assert (H : (Float.nearest y < n + 1)%Z).
  { apply lt_IZR. rewrite plus_IZR. lra. }
  lia.
Qed.

Lemma nearest_ge (y : R) (n : Z) : IZR n <= y -> (n <= Float.nearest y)%Z.
Proof.
  intros Hy. pose proof (nearest_bound y) as [Hb _].
  assert (H : (n - 1 < Float.nearest y)%Z).
  { apply lt_IZR. rewrite minus_IZR. lra. }
  lia.
Qed.


Lemma round_error (x : R) : Rabs (Float.round x - x) <= Float.ulp x / 2.
Proof.
  unfold Float.round. pose proof (ulp_pos x) as Hu.
  destruct (Req_dec_T x 0) as [-> | Hx].
  - rewrite Rminus_diag, Rabs_R0. lra.
  - pose proof (nearest_bound (x / Float.ulp x)) as [H1 H2].
    set (n := IZR (Float.nearest (x / Float.ulp x))) in *.
    replace (n * Float.ulp x - x)
      with ((n - x / Float.ulp x) * Float.ulp x) by (field; lra).
    set (d := n - x / Float.ulp x).
    assert (Hd : - (1 / 2) <= d <= 1 / 2) by (unfold d; lra).
    apply Rabs_le. split; nra.
Qed.

Lemma round_nonneg (x : R) : 0 <= x -> 0 <= Float.round x.
Proof.
  intros Hx. unfold Float.round. pose proof (ulp_pos x) as Hu.
  destruct (Req_dec_T x 0); [lra |].
  apply Rmult_le_pos; [| lra].
  apply IZR_le, nearest_ge. cbn.
  apply Rmult_le_pos; [lra |]. left. apply Rinv_0_lt_compat, Hu.
Qed.

Lemma exponent_le_0 (x : R) : x <> 0 -> Rabs x <= 1 -> (Float.exponent x <= 0)%Z.
Proof.
  intros Hx H1. unfold Float.exponent.
  pose proof ln_2_pos as H2.
  assert (H0 : 0 < Rabs x) by (apply Rabs_pos_lt, Hx).
  assert (L : ln (Rabs x) <= 0).
  { rewrite <- ln_1. destruct H1 as [H1 | H1].
    - left. apply ln_increasing; assumption.
    - rewrite H1. right. reflexivity. }
  pose proof (Int_part_bound (ln (Rabs x) / ln 2)) as [Hb _].
  assert (Hq : ln (Rabs x) / ln 2 <= 0).
  { unfold Rdiv. assert (0 < / ln 2) by (apply Rinv_0_lt_compat, H2). nra. }
  assert (Hi : (Int_part (ln (Rabs x) / ln 2) < 1)%Z) by (apply lt_IZR; lra).
  lia.
Qed.

Lemma powerRZ_2_nat (k : Z) : (0 <= k)%Z -> powerRZ 2 k = IZR (2 ^ k).
Proof.
  intros Hk. rewrite <- (Z2Nat.id k Hk) at 1.
  rewrite <- pow_powerRZ. rewrite pow_IZR. rewrite Z2Nat.id by exact Hk.
  reflexivity.
Qed.

(** The reciprocal of the spacing below 1 is a whole number. *)
Lemma ulp_inv (x : R) :
  (Float.exponent x <= 52)%Z ->
  Float.ulp x * IZR (2 ^ (52 - Float.exponent x)) = 1.
Proof.
  intros He. unfold Float.ulp.
  rewrite <- powerRZ_2_nat by lia.
  rewrite <- powerRZ_add by lra.
  replace (Float.exponent x - 52 + (52 - Float.exponent x))%Z with 0%Z by lia.
  reflexivity.
Qed.

(** A number that is at most 1 is rounded to a double that is at most 1. *)
Lemma round_le_1 (x : R) : x <= 1 -> Float.round x <= 1.
Proof.
  intros Hx. unfold Float.round. pose proof (ulp_pos x) as Hu.
  destruct (Req_dec_T x 0) as [| H0]; [lra |].
  assert (Hi : 0 < / Float.ulp x) by (apply Rinv_0_lt_compat, Hu).
  destruct (Rle_dec x 0) as [Hn | Hp].
  - assert (H : (Float.nearest (x / Float.ulp x) <= 0)%Z).
    { apply nearest_le. cbn. unfold Rdiv. nra. }
    apply IZR_le in H. nra.
  - assert (He : (Float.exponent x <= 0)%Z).
    { apply exponent_le_0; [exact H0 |]. rewrite Rabs_pos_eq; lra. }
    pose proof (ulp_inv x ltac:(lia)) as Hinv.
    set (N := (2 ^ (52 - Float.exponent x))%Z) in *.
    assert (H : (Float.nearest (x / Float.ulp x) <= N)%Z).
    { apply nearest_le.
      replace (IZR N) with (1 / Float.ulp x) by (rewrite <- Hinv; field; lra).
      unfold Rdiv. apply Rmult_le_compat_r; lra. }
    apply IZR_le in H. rewrite <- Hinv.
    rewrite (Rmult_comm (Float.ulp x)). apply Rmult_le_compat_r; lra.
Qed.

Lemma round_ge (x : R) (n : Z) :
  x <> 0 -> IZR n - 1 / 2 < x / Float.ulp x ->
  IZR n * Float.ulp x <= Float.round x.
Proof.
  intros Hx Hn. unfold Float.round. pose proof (ulp_pos x) as Hu.
  destruct (Req_dec_T x 0); [contradiction |].
  apply Rmult_le_compat_r; [lra |].
  apply IZR_le.
  pose proof (nearest_bound (x / Float.ulp x)) as [Hb _].
  assert (H : (n - 1 < Float.nearest (x / Float.ulp x))%Z).
  { apply lt_IZR. rewrite minus_IZR. lra. }
  lia.
Qed.

Lemma powerRZ_2_m53 : powerRZ 2 (-53) = / 9007199254740992.
Proof. unfold powerRZ. rewrite pow_IZR. reflexivity. Qed.

Lemma powerRZ_2_m105 :
  powerRZ 2 (-105) = / 40564819207303340847894502572032.
Proof. unfold powerRZ. rewrite pow_IZR. reflexivity. Qed.

Lemma powerRZ_2_m52 : powerRZ 2 (-52) = / 4503599627370496.
Proof. unfold powerRZ. rewrite pow_IZR. reflexivity. Qed.

(** Within half a spacing below 1, and at 1, the nearest double is 1. *)
Lemma round_near_1 (x : R) :
  1 - / 18014398509481984 < x <= 1 -> Float.round x = 1.
Proof.
  intros [Hlo Hhi]. apply Rle_antisym; [apply round_le_1, Hhi |].
  assert (Hx : x <> 0) by lra.
  destruct (Req_dec_T x 1) as [-> | H1].
  - assert (E : Float.exponent 1 = 0%Z).
    { apply exponent_binade; [lia |]. rewrite Rabs_R1.
      change (powerRZ 2 0) with 1. change (powerRZ 2 (0 + 1)) with (2 * 1). lra. }
    pose proof (round_ge 1 4503599627370496 Hx) as H.
    unfold Float.ulp in H. rewrite E in H.
    change (0 - 52)%Z with (-52)%Z in H. rewrite powerRZ_2_m52 in H.
    lra.
  - assert (E : Float.exponent x = (-1)%Z).
    { apply exponent_binade; [lia |]. rewrite Rabs_pos_eq by lra.
      change (powerRZ 2 (-1)) with (/ (2 * 1)). change (powerRZ 2 (-1 + 1)) with 1.
      lra. }
    pose proof (round_ge x 9007199254740992 Hx) as H.
    unfold Float.ulp in H. rewrite E in H.
    change (-1 - 52)%Z with (-53)%Z in H. rewrite powerRZ_2_m53 in H.
    lra.
Qed.

Lemma sum_step (f : nat -> R) (n : nat) :
  sum_f_R0 f (S n) = sum_f_R0 f n + f (S n).
Proof. reflexivity. Qed.

Ltac machin_sum H :=
  unfold PI_2_3_7_tg, tg_alt, Ratan_seq in H;
  cbn [Nat.mul Nat.add sum_f_R0] in H;
  rewrite !INR_IZR_INZ in H;
  cbn [Z.of_nat Pos.of_succ_nat Pos.succ] in H.

(** [Math.PI] lies below pi, by a little more than 1.2246e-16. *)
Lemma Float_PI_gap :
  12246 / 10 ^ 20 < PI - Float.PI < 12247 / 10 ^ 20.
Proof.
  unfold Float.PI. split.
  - pose proof (proj1 (PI_2_3_7_ineq 11)) as H. machin_sum H. lra.
  - pose proof (proj2 (PI_2_3_7_ineq 11)) as H. machin_sum H. lra.
Qed.

Lemma sin_small (d : R) :
  0 < d < / 10 ^ 15 -> d - d / 10 ^ 20 <= sin d < d.
Proof.
  intros [H0 H1]. split; [| apply sin_lt_x, H0].
  pose proof PI2_3_2 as Hpi.
  destruct (SIN d) as [Hlb _]; [lra | lra |].
  eapply Rle_trans; [| exact Hlb].
  unfold sin_lb, sin_approx, sin_term. cbn [sum_f_R0 Nat.mul Nat.add fact].
  rewrite !INR_IZR_INZ. cbn [Z.of_nat Pos.of_succ_nat Pos.succ].
  assert (H2 : 0 <= d * d <= / 10 ^ 30).
  { split; [nra |].
    replace (/ 10 ^ 30) with (/ 10 ^ 15 * / 10 ^ 15) by lra.
    apply Rmult_le_compat; lra. }
  set (q := d * d) in *.
  replace (d ^ 1) with d by ring.
  replace (d ^ 3) with (d * q) by (unfold q; ring).
  replace (d ^ 5) with (d * (q * q)) by (unfold q; ring).
  replace (d ^ 7) with (d * (q * q * q)) by (unfold q; ring).
  assert (Hq2 : 0 <= q * q) by nra.
  assert (Hq3 : 0 <= q * q * q <= q).
  { split; [nra |]. assert (q * q <= 1) by nra. nra. }
  assert (A : d * q <= d * / 10 ^ 30) by (apply Rmult_le_compat_l; lra).
  assert (B : d * (q * q * q) <= d * / 10 ^ 30) by (apply Rmult_le_compat_l; lra).
  assert (C : 0 <= d * (q * q)) by (apply Rmult_le_pos; lra).
  lra.
Qed.

Lemma cos_small (a : R) : 0 <= a < / 10 ^ 15 -> 1 - / 10 ^ 30 <= cos a <= 1.
Proof.
  intros [H0 H1]. split; [| apply COS_bound].
  pose proof PI2_3_2 as Hpi.
  destruct (COS a) as [Hlb _]; [lra | lra |].
  eapply Rle_trans; [| exact Hlb].
  unfold cos_lb, cos_approx, cos_term. cbn [sum_f_R0 Nat.mul Nat.add fact].
  rewrite !INR_IZR_INZ. cbn [Z.of_nat Pos.of_succ_nat Pos.succ].
  assert (H2 : 0 <= a * a <= / 10 ^ 30).
  { split; [nra |].
    replace (/ 10 ^ 30) with (/ 10 ^ 15 * / 10 ^ 15) by lra.
    apply Rmult_le_compat; lra. }
  set (q := a * a) in *.
  replace (a ^ 0) with 1 by ring.
  replace (a ^ 2) with q by (unfold q; ring).
  replace (a ^ 4) with (q * q) by (unfold q; ring).
  replace (a ^ 6) with (q * q * q) by (unfold q; ring).
  assert (Hq2 : 0 <= q * q) by nra.
  assert (Hq3 : 0 <= q * q * q <= q).
  { split; [nra |]. assert (q * q <= 1) by nra. nra. }
  lra.
Qed.

Lemma sin_Float_PI :
  122459 / 10 ^ 21 < sin Float.PI < 12247 / 10 ^ 20.
Proof.
  pose proof Float_PI_gap as [G1 G2].
  replace Float.PI with (PI - (PI - Float.PI)) by ring.
  rewrite sin_PI_x.
  destruct (sin_small (PI - Float.PI)) as [S1 S2]; [lra |].
  lra.
Qed.

Lemma Float_sin_PI :
  12245 / 10 ^ 20 < Float.sin Float.PI < 12248 / 10 ^ 20.
Proof.
  pose proof sin_Float_PI as [S1 S2].
  unfold Float.sin. pose proof (round_error (sin Float.PI)) as He.
  assert (E : Float.exponent (sin Float.PI) = (-53)%Z).
  { apply exponent_binade; [lia |]. rewrite Rabs_pos_eq by lra.
    change (-53 + 1)%Z with (-52)%Z.
    rewrite powerRZ_2_m53, powerRZ_2_m52. lra. }
  unfold Float.ulp in He. rewrite E in He.
  change (-53 - 52)%Z with (-105)%Z in He. rewrite powerRZ_2_m105 in He.
  revert He. unfold Rabs.
  destruct (Rcase_abs (Float.round (sin Float.PI) - sin Float.PI)); lra.
Qed.

Lemma exponent_lt_0 (x : R) :
  x <> 0 -> Rabs x < 1 -> (Float.exponent x <= -1)%Z.
Proof.
  intros Hx H1. unfold Float.exponent.
  pose proof ln_2_pos as H2.
  assert (H0 : 0 < Rabs x) by (apply Rabs_pos_lt, Hx).
  assert (L : ln (Rabs x) < 0).
  { rewrite <- ln_1. apply ln_increasing; assumption. }
  pose proof (Int_part_bound (ln (Rabs x) / ln 2)) as [Hb _].
  assert (Hq : ln (Rabs x) / ln 2 < 0).
  { unfold Rdiv. assert (0 < / ln 2) by (apply Rinv_0_lt_compat, H2). nra. }
  assert (Hi : (Int_part (ln (Rabs x) / ln 2) < 0)%Z) by (apply lt_IZR; lra).
  lia.
Qed.

(** Below 1 the doubles are at most 2^-53 apart. *)
Lemma ulp_below_1 (x : R) :
  x <> 0 -> Rabs x < 1 -> Float.ulp x <= / 9007199254740992.
Proof.
  intros Hx H1. pose proof (exponent_lt_0 x Hx H1) as He.
  pose proof (ulp_pos x) as Hu. unfold Float.ulp in *.
  set (e := Float.exponent x) in *.
  rewrite <- powerRZ_2_m53.
  replace (-53)%Z with (e - 52 + (-1 - e))%Z by lia.
  rewrite powerRZ_add by lra.
  rewrite (powerRZ_2_nat (-1 - e)) by lia.
  assert (H : (1 <= 2 ^ (-1 - e))%Z) by (apply Z.lt_pred_le, Z.pow_pos_nonneg; lia).
  apply IZR_le in H. nra.
Qed.

(** *** The light at 6:00, noon and 18:00 in doubles *)

Lemma Float_PI_range : 3 < Float.PI < PI.
Proof.
  pose proof Float_PI_gap as [G _]. split; [unfold Float.PI; lra | lra].
Qed.

Lemma Float_map_daylight (t : R) :
  P5.map t 6 18 0 Float.PI = (t - 6) / 12 * Float.PI.
Proof. unfold P5.map. field. Qed.

Lemma Float_sin_le_1 (x : R) : Float.sin x <= 1.
Proof. apply round_le_1. generalize (SIN_bound x). lra. Qed.

Lemma Float_deriveLight_night (t : R) :
  t < 6 \/ 18 < t -> Float.deriveLight t = 0.
Proof.
  intros Ht. unfold Float.deriveLight. cbv zeta.
  destruct (Rge_dec t 6); [destruct (Rle_dec t 18); [lra |] |];
    destruct (Rlt_dec 0 0); reflexivity.
Qed.

(** Inside the window the angle stays between 0 and pi, where the sine
    and its nearest double are not negative: the clamp leaves the value. *)
Lemma Float_deriveLight_day (t : R) :
  6 <= t <= 18 ->
  Float.deriveLight t = 100 * Float.sin ((t - 6) / 12 * Float.PI).
Proof.
  intros Ht. unfold Float.deriveLight. cbv zeta.
  destruct (Rge_dec t 6); [| lra]. destruct (Rle_dec t 18); [| lra].
  rewrite Float_map_daylight.
  pose proof Float_PI_range as [P1 P2].
  assert (Hs : 0 <= Float.sin ((t - 6) / 12 * Float.PI)).
  { apply round_nonneg. apply sin_ge_0; nra. }
  destruct (Rlt_dec (Float.sin ((t - 6) / 12 * Float.PI) * 100) 0); lra.
Qed.

Lemma Float_deriveLight_range (t : R) : 0 <= Float.deriveLight t <= 100.
Proof.
  destruct (Rle_dec 6 t) as [H6 |]; [destruct (Rle_dec t 18) as [H18 |] |].
  - rewrite Float_deriveLight_day by lra.
    pose proof (Float_sin_le_1 ((t - 6) / 12 * Float.PI)).
    pose proof Float_PI_range as [P1 P2].
    assert (0 <= Float.sin ((t - 6) / 12 * Float.PI))
      by (apply round_nonneg, sin_ge_0; nra).
    lra.
  - rewrite Float_deriveLight_night by lra. lra.
  - rewrite Float_deriveLight_night by lra. lra.
Qed.

Lemma Float_deriveLight_6 : Float.deriveLight 6 = 0.
Proof.
  rewrite Float_deriveLight_day by lra.
  replace ((6 - 6) / 12 * Float.PI) with 0 by (unfold Rdiv; ring).
  unfold Float.sin. rewrite sin_0. unfold Float.round.
  destruct (Req_dec_T 0 0); [ring | contradiction].
Qed.

(** At noon the angle is half the double [PI]; its sine falls short of 1
    by less than 1e-30 and the nearest double is 1. *)
Lemma Float_deriveLight_12 : Float.deriveLight 12 = 100.
Proof.
  rewrite Float_deriveLight_day by lra.
  pose proof Float_PI_gap as [G1 G2].
  replace ((12 - 6) / 12 * Float.PI) with (PI / 2 - (PI - Float.PI) / 2) by field.
  unfold Float.sin. rewrite sin_shift.
  destruct (cos_small ((PI - Float.PI) / 2)) as [C1 C2]; [lra |].
  rewrite round_near_1; lra.
Qed.

(** At 18:00 the angle is the double [PI] itself, a little below pi. *)
Lemma Float_deriveLight_18 :
  122 / 10 ^ 16 < Float.deriveLight 18 < 123 / 10 ^ 16.
Proof.
  rewrite Float_deriveLight_day by lra.
  replace ((18 - 6) / 12 * Float.PI) with Float.PI by field.
  pose proof Float_sin_PI. lra.
Qed.

(** *** The temperature effect next to 25 degrees in doubles *)

Lemma Float_exp_le_1 (x : R) : 0 <= x -> Float.exp (- x) <= 1.
Proof.
  intros Hx. apply round_le_1.
  destruct Hx as [Hx | <-].
  - left. rewrite <- exp_0. apply exp_increasing. lra.
  - rewrite Ropp_0, exp_0. lra.
Qed.

(** An exponent within 1e-17 of 0: the exponential is less than half the
    distance between doubles away from 1. *)
Lemma Float_exp_near_0 (x : R) :
  0 <= x < / 10 ^ 17 -> Float.exp (- x) = 1.
Proof.
  intros [H0 H1]. apply round_near_1. split.
  - pose proof (exp_ineq1_le (- x)). lra.
  - destruct H0 as [H0 | <-].
    + left. rewrite <- exp_0. apply exp_increasing. lra.
    + rewrite Ropp_0, exp_0. lra.
Qed.

Lemma Float_exp_below_1 (x : R) :
  5 / 10 ^ 15 <= x -> Float.exp (- x) < 1.
Proof.
  intros Hx. unfold Float.exp.
  pose proof (exp_pos (- x)) as Hp.
  pose proof (exp_ineq1_le x) as Hl.
  assert (Hy : exp (- x) <= / (1 + 5 / 10 ^ 15)).
  { rewrite exp_Ropp. apply Rinv_le_contravar; lra. }
  assert (Hc : / (1 + 5 / 10 ^ 15) < 1 - 4 / 10 ^ 15) by lra.
  pose proof (round_error (exp (- x))) as He.
  pose proof (ulp_below_1 (exp (- x))) as Hu.
  rewrite Rabs_pos_eq in Hu by lra.
  specialize (Hu ltac:(lra) ltac:(lra)).
  revert He. unfold Rabs.
  destruct (Rcase_abs (Float.round (exp (- x)) - exp (- x))); lra.
Qed.

Lemma tempDiff_sqr (st : State) :
  Rabs (temp st - OPTIMAL_TEMP) ^ 2
  = Rabs (temp st - 25) * Rabs (temp st - 25).
Proof. unfold OPTIMAL_TEMP. ring. Qed.

Lemma Float_tempEffect_le_100 (st : State) : Float.tempEffect st <= 100.
Proof.
  unfold Float.tempEffect. cbv zeta. rewrite tempDiff_sqr.
  pose proof (Rabs_pos (temp st - 25)) as Hd.
  assert (H : Float.exp (- (Rabs (temp st - 25) * Rabs (temp st - 25) / 200)) <= 1)
    by (apply Float_exp_le_1; nra).
  match goal with |- context [Rlt_dec ?a 1] => destruct (Rlt_dec a 1) end; lra.
Qed.

Lemma Float_tempEffect_near (st : State) :
  Rabs (temp st - 25) <= / 10 ^ 8 -> Float.tempEffect st = 100.
Proof.
  intros Hn. unfold Float.tempEffect. cbv zeta. rewrite tempDiff_sqr.
  pose proof (Rabs_pos (temp st - 25)) as Hd.
  rewrite Float_exp_near_0.
  - destruct (Rlt_dec (100 * 1) 1); lra.
  - assert (Rabs (temp st - 25) * Rabs (temp st - 25) <= / 10 ^ 8 * / 10 ^ 8)
      by (apply Rmult_le_compat; lra).
    split; [nra | lra].
Qed.

Lemma Float_tempEffect_far (st : State) :
  / 10 ^ 6 <= Rabs (temp st - 25) -> Float.tempEffect st < 100.
Proof.
  intros Hf. unfold Float.tempEffect. cbv zeta. rewrite tempDiff_sqr.
  assert (H : Float.exp (- (Rabs (temp st - 25) * Rabs (temp st - 25) / 200)) < 1).
  { apply Float_exp_below_1.
    assert (/ 10 ^ 6 * / 10 ^ 6 <= Rabs (temp st - 25) * Rabs (temp st - 25))
      by (apply Rmult_le_compat; lra).
    lra. }
  match goal with |- context [Rlt_dec ?a 1] => destruct (Rlt_dec a 1) end; lra.
Qed.

(** ** Effect scores *)

Lemma lightEffect_effectScore (st : State) :
  lightEffect st = Spec.effectScore (light st).
Proof. unfold lightEffect, Spec.effectScore, Rdiv. ring. Qed.

Lemma co2Effect_effectScore (st : State) :
  co2Effect st = Spec.effectScore (co2 st).
Proof. unfold co2Effect, Spec.effectScore, Rdiv. ring. Qed.

Lemma gaussian_code (st : State) :
  100 * exp (- (Rabs (temp st - OPTIMAL_TEMP) ^ 2 / 200))
  = Spec.gaussian (temp st).
Proof.
  unfold Spec.gaussian, OPTIMAL_TEMP.
  rewrite pow2_abs. f_equal. f_equal. unfold Rdiv. ring.
Qed.

Lemma tempEffect_temperatureEffect (st : State) :
  tempEffect st = Spec.temperatureEffect (temp st).
Proof.
  unfold tempEffect, Spec.temperatureEffect.
  cbv zeta. rewrite gaussian_code. reflexivity.
Qed.

Lemma exp_neg_le_1 (x : R) : 0 <= x -> exp (- x) <= 1.
Proof.
  intros [Hx | Hx].
  - left. rewrite <- exp_0. apply exp_increasing. lra.
  - subst x. rewrite Ropp_0, exp_0. lra.
Qed.

Lemma exp_neg_lt_1 (x : R) : 0 < x -> exp (- x) < 1.
Proof. intros Hx. rewrite <- exp_0. apply exp_increasing. lra. Qed.

Lemma gaussian_exponent (t : R) :
  - ((t - 25) ^ 2) / 200 = - ((t - 25) ^ 2 / 200).
Proof. unfold Rdiv. ring. Qed.

Lemma gaussian_pos (t : R) : 0 < Spec.gaussian t.
Proof. unfold Spec.gaussian. generalize (exp_pos (- ((t - 25) ^ 2) / 200)). lra. Qed.

Lemma gaussian_le_100 (t : R) : Spec.gaussian t <= 100.
Proof.
  unfold Spec.gaussian. rewrite gaussian_exponent.
  assert (H : 0 <= (t - 25) ^ 2 / 200) by (generalize (pow2_ge_0 (t - 25)); lra).
  generalize (exp_neg_le_1 _ H). lra.
Qed.

Lemma gaussian_lt_100 (t : R) : t <> 25 -> Spec.gaussian t < 100.
Proof.
  intros Ht. unfold Spec.gaussian. rewrite gaussian_exponent.
  assert (H : 0 < (t - 25) ^ 2 / 200).
  { assert (0 < (t - 25) ^ 2) by nra. lra. }
  generalize (exp_neg_lt_1 _ H). lra.
Qed.

Lemma gaussian_25 : Spec.gaussian 25 = 100.
Proof.
  unfold Spec.gaussian.
  replace (- ((25 - 25) ^ 2) / 200) with 0 by (unfold Rdiv; ring).
  rewrite exp_0. ring.
Qed.

Lemma temperatureEffect_bounds (t : R) :
  0 <= Spec.temperatureEffect t <= 100.
Proof.
  unfold Spec.temperatureEffect.
  generalize (gaussian_pos t) (gaussian_le_100 t).
  destruct (Rlt_dec (Spec.gaussian t) 1); lra.
Qed.

Lemma tempEffect_bounds (st : State) : 0 <= tempEffect st <= 100.
Proof. rewrite tempEffect_temperatureEffect. apply temperatureEffect_bounds. Qed.

Lemma min3_le_r (a b c : R) : min3 a b c <= c.
Proof. unfold min3. apply Rmin_r. Qed.

(** ** The returned rate *)

Lemma calculateRate_snd (st : State) :
  snd (calculateRate st)
  = if Rlt_dec (light st) 1 then 0
    else min3 (lightEffect st) (co2Effect st) (tempEffect st).
Proof. reflexivity. Qed.

Lemma calculateRate_le_100 (st : State) : snd (calculateRate st) <= 100.
Proof.
  rewrite calculateRate_snd.
  destruct (Rlt_dec (light st) 1); [lra |].
  eapply Rle_trans; [apply min3_le_r | apply tempEffect_bounds].
Qed.

Lemma calculateRate_growthRate (st : State) :
  growthRate (fst (calculateRate st)) = snd (calculateRate st).
Proof.
  unfold calculateRate. cbv zeta. cbn [fst snd].
  repeat match goal with |- context [Req_dec_T ?a ?b] => destruct (Req_dec_T a b) end;
    reflexivity.
Qed.

(** What [calculateRate] leaves alone. *)
Lemma calculateRate_frame (st : State) :
  time (fst (calculateRate st)) = time st /\
  day (fst (calculateRate st)) = day st /\
  autoPlay (fst (calculateRate st)) = autoPlay st /\
  light (fst (calculateRate st)) = light st /\
  co2 (fst (calculateRate st)) = co2 st /\
  temp (fst (calculateRate st)) = temp st /\
  biomass (fst (calculateRate st)) = biomass st.
Proof.
  unfold calculateRate. cbv zeta. cbn [fst snd].
  repeat match goal with |- context [Req_dec_T ?a ?b] => destruct (Req_dec_T a b) end;
    cbn; repeat split; reflexivity.
Qed.

(** C2. For every state, the rate [calculateRate] returns is the one it
    stores in [growthRate].  It is 0 when [light < 1].  Otherwise it is
    the minimum of the light score [100 * (light / (light + 20))], the CO2
    score [100 * (co2 / (co2 + 20))] and the temperature effect: it is at
    most each of the three, and it is one of the three. *)
Theorem calculateRate_is_min_of_scores (st : State) :
  let lightScore := 100 * (light st / (light st + 20)) in
  let co2Score := 100 * (co2 st / (co2 st + 20)) in
  let tempScore := tempEffect st in
  let rate := snd (calculateRate st) in
  growthRate (fst (calculateRate st)) = rate
  /\ (light st < 1 -> rate = 0)
  /\ (~ light st < 1 ->
      rate <= lightScore /\ rate <= co2Score /\ rate <= tempScore
      /\ (rate = lightScore \/ rate = co2Score \/ rate = tempScore)).
Proof.
  cbv zeta. split; [apply calculateRate_growthRate |].
  rewrite calculateRate_snd.
  change (100 * (light st / (light st + 20))) with (lightEffect st).
  change (100 * (co2 st / (co2 st + 20))) with (co2Effect st).
  destruct (Rlt_dec (light st) 1) as [Hd | Hd].
  - split; [reflexivity | contradiction].
  - split; [contradiction |]. intros _.
    generalize (lightEffect st) (co2Effect st) (tempEffect st).
    intros a b c. unfold min3, Rmin.
    destruct (Rle_dec a b); destruct (Rle_dec a c); destruct (Rle_dec b c);
      repeat split; try lra; auto.
Qed.

Lemma calculateRate_is_min_of_scores_witness :
  snd (calculateRate state) <= 100 * (light state / (light state + 20))
  /\ snd (calculateRate state) <= 100 * (co2 state / (co2 state + 20))
  /\ snd (calculateRate state) <= tempEffect state.
Proof.
  destruct (calculateRate_is_min_of_scores state) as (_ & _ & H).
  destruct H as (H1 & H2 & H3 & _); [cbn; lra |].
  split; [exact H1 | split; [exact H2 | exact H3]].
Defined.

(** C7. The temperature effect computed by [calculateRate] is the Gaussian
    [100 * exp(-((temp - 25)^2) / 200)] snapped to 0 when below 1.  It
    never exceeds 100, it is 100 at 25 degrees, and it is below 100 once
    the temperature is a millionth of a degree or more away from 25.  In
    doubles the same bounds hold, and the effect is exactly 100 for every
    temperature within a hundred-millionth of a degree of 25. *)
Theorem tempEffect_gaussian_peak (st : State) :
  tempEffect st
  = (if Rlt_dec (100 * exp (- ((temp st - 25) ^ 2) / 200)) 1 then 0
     else 100 * exp (- ((temp st - 25) ^ 2) / 200))
  /\ tempEffect st <= 100
  /\ (temp st = 25 -> tempEffect st = 100)
  /\ (/ 10 ^ 6 <= Rabs (temp st - 25) -> tempEffect st < 100)
  /\ Float.tempEffect st <= 100
  /\ (Rabs (temp st - 25) <= / 10 ^ 8 -> Float.tempEffect st = 100)
  /\ (/ 10 ^ 6 <= Rabs (temp st - 25) -> Float.tempEffect st < 100).
Proof.
  split; [apply tempEffect_temperatureEffect |].
  split; [apply tempEffect_bounds |].
  split.
  { intros E. rewrite tempEffect_temperatureEffect, E.
    unfold Spec.temperatureEffect. rewrite gaussian_25.
    destruct (Rlt_dec 100 1); lra. }
  split.
  { intros Hf. rewrite tempEffect_temperatureEffect.
    unfold Spec.temperatureEffect.
    assert (N : temp st <> 25).
    { intros E. rewrite E, Rminus_diag, Rabs_R0 in Hf.
      assert (0 < / 10 ^ 6) by lra. lra. }
    generalize (gaussian_lt_100 _ N).
    destruct (Rlt_dec (Spec.gaussian (temp st)) 1); lra. }
  split; [apply Float_tempEffect_le_100 |].
  split; [apply Float_tempEffect_near | apply Float_tempEffect_far].
Qed.

Lemma tempEffect_gaussian_peak_witness :
  tempEffect state = 100
  /\ Float.tempEffect nearPeak = 100
  /\ Float.tempEffect (set_temp state 26) < 100.
Proof.
  split; [| split].
  - apply (proj1 (proj2 (proj2 (tempEffect_gaussian_peak state)))).
    reflexivity.
  - apply (proj1 (proj2 (proj2 (proj2 (proj2 (proj2
             (tempEffect_gaussian_peak nearPeak))))))).
    unfold nearPeak. cbn [temp set_temp].
    replace (25 + 81 / 2 ^ 48 - 25) with (81 / 2 ^ 48) by ring.
    rewrite Rabs_pos_eq; lra.
  - apply (proj2 (proj2 (proj2 (proj2 (proj2 (proj2
             (tempEffect_gaussian_peak (set_temp state 26)))))))).
    cbn [temp set_temp].
    replace (26 - 25) with 1 by ring.
    rewrite Rabs_R1. lra.
Defined.

(** The claim's "equality iff temp == 25" fails in doubles.  At
    25.000000000000288 the exponent is about -4e-28, [Math.exp] returns
    the double 1 and the effect is exactly 100. *)
Lemma tempEffect_100_off_peak :
  Float.tempEffect nearPeak = 100 /\ temp nearPeak <> 25.
Proof.
  split.
  - apply Float_tempEffect_near. unfold nearPeak. cbn [temp set_temp].
    replace (25 + 81 / 2 ^ 48 - 25) with (81 / 2 ^ 48) by ring.
    rewrite Rabs_pos_eq; lra.
  - unfold nearPeak. cbn [temp set_temp]. lra.
Qed.

(** ** The clock *)

Lemma calculateEnvironment_paused (st : State) :
  autoPlay st = false -> calculateEnvironment st = st.
Proof. unfold calculateEnvironment. intros ->. reflexivity. Qed.

Lemma calculateEnvironment_time (st : State) :
  autoPlay st = true ->
  time (calculateEnvironment st) = time (advanceClock st) /\
  day (calculateEnvironment st) = day (advanceClock st).
Proof. unfold calculateEnvironment. intros ->. split; reflexivity. Qed.

(** At the concrete state [lateEvening] the incremented time is 24.01; the
    code stores 0, not 24.01 - 24. *)
Lemma clock_wrap_drops_excess :
  autoPlay lateEvening = true /\
  time lateEvening + 0.02 >= 24 /\
  time (calculateEnvironment lateEvening) <> time lateEvening + 0.02 - 24.
Proof.
  split; [reflexivity |]. split; [cbn; lra |].
  unfold calculateEnvironment, advanceClock. cbn.
  destruct (Rge_dec (23.99 + 0.02) 24) as [_ | N]; cbn; lra.
Qed.

(** C4 (amended). With [autoPlay] set, the clock part of
    [calculateEnvironment] adds 0.02 to the time; when the incremented
    time is at least 24 the time is reset to 0 and the day counter grows
    by exactly 1, otherwise the day counter is unchanged.  With [autoPlay]
    cleared, [calculateEnvironment] returns the state unchanged. *)
Theorem clock_advance_resets_to_zero (st : State) :
  let st' := calculateEnvironment st in
  if autoPlay st then
    if Rge_dec (time st + 0.02) 24
    then time st' = 0 /\ day st' = (day st + 1)%Z
    else time st' = time st + 0.02 /\ day st' = day st
  else st' = st.
Proof.
  cbv zeta. destruct (autoPlay st) eqn:Ha.
  - destruct (calculateEnvironment_time st Ha) as [-> ->].
    unfold advanceClock. cbn.
    destruct (Rge_dec (time st + 0.02) 24); split; reflexivity.
  - apply calculateEnvironment_paused, Ha.
Qed.

(** ** Biomass integration *)

Lemma calculateEnvironment_biomass (st : State) :
  biomass (calculateEnvironment st) = biomass st.
Proof.
  unfold calculateEnvironment, advanceClock.
  destruct (autoPlay st); [| reflexivity]. cbn.
  destruct (Rge_dec (time st + 0.02) 24); reflexivity.
Qed.

Lemma updateSimulation_unfold (st : State) :
  updateSimulation st
  = set_biomass (fst (calculateRate (calculateEnvironment st)))
      (integrateBiomass (biomass (calculateEnvironment st))
                        (snd (calculateRate (calculateEnvironment st)))).
Proof.
  unfold updateSimulation. cbv zeta.
  destruct (calculateRate_frame (calculateEnvironment st))
    as (_ & _ & _ & _ & _ & _ & Hb).
  destruct (calculateRate (calculateEnvironment st)) as [st2 rate] eqn:E.
  cbn [fst snd] in *. rewrite Hb. reflexivity.
Qed.

Lemma updateSimulation_biomass (st : State) :
  biomass (updateSimulation st)
  = integrateBiomass (biomass st)
      (snd (calculateRate (calculateEnvironment st))).
Proof.
  rewrite updateSimulation_unfold. cbn. now rewrite calculateEnvironment_biomass.
Qed.

Lemma integrateBiomass_grow (b r : R) :
  0 < r -> b < MAX_BIOMASS -> integrateBiomass b r = b + r * 0.0005.
Proof.
  intros Hr Hb. unfold integrateBiomass.
  destruct (Rgt_dec r 0); [| lra].
  destruct (Rlt_dec b MAX_BIOMASS); [reflexivity | lra].
Qed.

Lemma integrateBiomass_keep (b r : R) :
  r <= 0 \/ MAX_BIOMASS <= b -> integrateBiomass b r = b.
Proof.
  intros H. unfold integrateBiomass.
  destruct (Rgt_dec r 0); [| reflexivity].
  destruct (Rlt_dec b MAX_BIOMASS); [lra | reflexivity].
Qed.

Lemma integrateBiomass_mono (b r : R) : b <= integrateBiomass b r.
Proof.
  unfold integrateBiomass.
  destruct (Rgt_dec r 0); [| lra].
  destruct (Rlt_dec b MAX_BIOMASS); lra.
Qed.

Lemma integrateBiomass_step (b r : R) :
  r <= 100 -> integrateBiomass b r <= b + 0.05.
Proof.
  intros Hr. unfold integrateBiomass.
  destruct (Rgt_dec r 0); [| lra].
  destruct (Rlt_dec b MAX_BIOMASS); lra.
Qed.

Lemma integrateBiomass_bound (b r : R) :
  r <= 100 -> b <= 200.05 -> integrateBiomass b r <= 200.05.
Proof.
  intros Hr Hb. unfold integrateBiomass, MAX_BIOMASS.
  destruct (Rgt_dec r 0); [| lra].
  destruct (Rlt_dec b 200); lra.
Qed.

(** With biomass 199.98 and rate 60 (both reached by [overshootRun]) the
    result is 200.01, above [MAX_BIOMASS]: nothing clamps it. *)
Lemma integrateBiomass_not_clamped :
  integrateBiomass 199.98 60 = 200.01 /\
  MAX_BIOMASS < integrateBiomass 199.98 60.
Proof.
  rewrite integrateBiomass_grow by (unfold MAX_BIOMASS; lra).
  unfold MAX_BIOMASS. split; lra.
Qed.

(** C5 (amended). The biomass step of [updateSimulation] takes the current
    biomass and the rate (there is no [dt]: one step per frame).  When the
    rate is positive and the biomass is below [MAX_BIOMASS] it returns
    [biomass + rate * 0.0005], a value below [MAX_BIOMASS + rate * 0.0005]
    that is not clamped to [MAX_BIOMASS]; when the rate is not positive or
    the biomass is already at or above [MAX_BIOMASS] it returns the biomass
    unchanged. *)
Theorem integrateBiomass_spec (st : State) (currentBiomass rate : R) :
  biomass (updateSimulation st)
  = integrateBiomass (biomass st)
      (snd (calculateRate (calculateEnvironment st)))
  /\ (0 < rate -> currentBiomass < MAX_BIOMASS ->
      integrateBiomass currentBiomass rate = currentBiomass + rate * 0.0005
      /\ integrateBiomass currentBiomass rate < MAX_BIOMASS + rate * 0.0005)
  /\ (rate <= 0 \/ MAX_BIOMASS <= currentBiomass ->
      integrateBiomass currentBiomass rate = currentBiomass).
Proof.
  split; [apply updateSimulation_biomass |]. split.
  - intros Hr Hb. rewrite integrateBiomass_grow by assumption. split; lra.
  - apply integrateBiomass_keep.
Qed.

Lemma integrateBiomass_spec_witness :
  integrateBiomass 15 60 = 15 + 60 * 0.0005 /\
  integrateBiomass 200 60 = 200.
Proof.
  split.
  - apply (proj1 (proj2 (integrateBiomass_spec state 15 60)));
      unfold MAX_BIOMASS; lra.
  - apply (proj2 (proj2 (integrateBiomass_spec state 200 60))).
    right. unfold MAX_BIOMASS. lra.
Defined.

(** ** Derived light *)

Lemma map_daylight (t : R) : P5.map t 6 18 0 PI = (t - 6) / 12 * PI.
Proof. unfold P5.map. field. Qed.

Lemma daylight_angle (t : R) :
  6 <= t <= 18 -> 0 <= (t - 6) / 12 * PI <= PI.
Proof. intros Ht. generalize PI_RGT_0. intros Hpi. split; nra. Qed.

Lemma deriveLight_night (t : R) : t < 6 \/ 18 < t -> deriveLight t = 0.
Proof.
  intros Ht. unfold deriveLight. cbv zeta.
  destruct (Rge_dec t 6); [destruct (Rle_dec t 18); [lra |] |];
    destruct (Rlt_dec 0 0); reflexivity.
Qed.

Lemma deriveLight_day (t : R) :
  6 <= t <= 18 -> deriveLight t = 100 * sin ((t - 6) / 12 * PI).
Proof.
  intros Ht. unfold deriveLight. cbv zeta.
  destruct (Rge_dec t 6); [| lra]. destruct (Rle_dec t 18); [| lra].
  rewrite map_daylight.
  destruct (daylight_angle t Ht) as [H0 H1].
  generalize (sin_ge_0 _ H0 H1). intros Hs.
  destruct (Rlt_dec (sin ((t - 6) / 12 * PI) * 100) 0); lra.
Qed.

Lemma deriveLight_nonneg (t : R) : 0 <= deriveLight t.
Proof.
  unfold deriveLight. cbv zeta.
  match goal with |- context [Rlt_dec ?l 0] => destruct (Rlt_dec l 0) end; lra.
Qed.

(** C6. The light [calculateEnvironment] derives is 0 for every time
    outside the daylight window [6,18]; from 6 up to 18 it is 100 times
    the sine of the time mapped linearly from [6,18] onto [0,PI]; it is
    100 at 12 and 0 at 6; and it is never negative.  With [autoPlay] set,
    [calculateEnvironment] stores this value, computed from the advanced
    time, in [light].  In doubles the light is again 0 outside the
    window, 100 at 12 and 0 at 6 and never negative, but at 18 it is not
    0: the angle is the double [PI], whose sine is positive, and the light
    is about 1.22e-14, which the clamp leaves as it is. *)
Theorem deriveLight_window (t : R) (st : State) :
  (t < 6 \/ 18 < t -> deriveLight t = 0)
  /\ (6 <= t < 18 -> deriveLight t = 100 * sin ((t - 6) / 12 * PI))
  /\ deriveLight 12 = 100
  /\ deriveLight 6 = 0
  /\ 0 <= deriveLight t
  /\ (autoPlay st = true ->
      light (calculateEnvironment st)
      = deriveLight (time (calculateEnvironment st)))
  /\ (t < 6 \/ 18 < t -> Float.deriveLight t = 0)
  /\ (6 <= t <= 18 ->
      Float.deriveLight t = 100 * Float.sin ((t - 6) / 12 * Float.PI))
  /\ Float.deriveLight 12 = 100
  /\ Float.deriveLight 6 = 0
  /\ 122 / 10 ^ 16 < Float.deriveLight 18 < 123 / 10 ^ 16
  /\ 0 <= Float.deriveLight t <= 100.
Proof.
  split; [apply deriveLight_night |].
  split; [intros Ht; apply deriveLight_day; lra |].
  split.
  { rewrite deriveLight_day by lra.
    replace ((12 - 6) / 12 * PI) with (PI / 2) by field.
    rewrite sin_PI2. ring. }
  split.
  { rewrite deriveLight_day by lra.
    replace ((6 - 6) / 12 * PI) with 0 by field.
    rewrite sin_0. ring. }
  split; [apply deriveLight_nonneg |].
  split.
  { intros Ha. unfold calculateEnvironment. rewrite Ha. reflexivity. }
  split; [apply Float_deriveLight_night |].
  split; [apply Float_deriveLight_day |].
  split; [apply Float_deriveLight_12 |].
  split; [apply Float_deriveLight_6 |].
  split; [apply Float_deriveLight_18 | apply Float_deriveLight_range].
Qed.

Lemma deriveLight_window_witness :
  deriveLight 2 = 0
  /\ deriveLight 9 = 100 * sin ((9 - 6) / 12 * PI)
  /\ light (calculateEnvironment state)
     = deriveLight (time (calculateEnvironment state))
  /\ Float.deriveLight 2 = 0
  /\ Float.deriveLight 18 = 100 * Float.sin ((18 - 6) / 12 * Float.PI).
Proof.
  pose proof (deriveLight_window 2 state) as (A & _ & _ & _ & _ & _ & B & _).
  pose proof (deriveLight_window 9 state) as (_ & C & _ & _ & _ & D & _).
  pose proof (deriveLight_window 18 state)
    as (_ & _ & _ & _ & _ & _ & _ & E & _).
  split; [apply A; lra |].
  split; [apply C; lra |].
  split; [apply D; reflexivity |].
  split; [apply B; lra | apply E; lra].
Defined.

(** The claim's [deriveLight(18) == 0] fails in doubles. *)
Lemma deriveLight_18_not_zero : Float.deriveLight 18 <> 0.
Proof. pose proof Float_deriveLight_18 as [H _]. lra. Qed.

(** ** Paused frames and manual input *)

Lemma updateSimulation_paused_frame (st : State) :
  autoPlay st = false ->
  let st' := updateSimulation st in
  time st' = time st /\ day st' = day st /\ autoPlay st' = false /\
  light st' = light st /\ co2 st' = co2 st /\ temp st' = temp st.
Proof.
  intros Ha. cbv zeta. rewrite updateSimulation_unfold.
  rewrite (calculateEnvironment_paused st Ha).
  destruct (calculateRate_frame st) as (Ht & Hd & Hp & Hl & Hc & Hte & _).
  unfold set_biomass. cbn [time day autoPlay light co2 temp].
  rewrite Ht, Hd, Hp, Hl, Hc, Hte, Ha. repeat split; reflexivity.
Qed.

Lemma updateSimulation_co2 (st : State) :
  co2 (updateSimulation st) = co2 st.
Proof.
  rewrite updateSimulation_unfold.
  destruct (calculateRate_frame (calculateEnvironment st))
    as (_ & _ & _ & _ & Hc & _).
  unfold set_biomass. cbn [co2].
  rewrite Hc. unfold calculateEnvironment, advanceClock.
  destruct (autoPlay st); [| reflexivity]. cbn.
  destruct (Rge_dec (time st + 0.02) 24); reflexivity.
Qed.

(** C8. With [autoPlay] cleared, a frame leaves the time, the day counter,
    the light and the temperature unchanged.  The CO2 slider writes [co2]
    whatever [autoPlay] is, without touching [autoPlay], and the next frame
    keeps that value.  After the light slider is moved to 10, [autoPlay]
    is cleared and the next frame leaves [light] at 10. *)
Theorem paused_tick_keeps_environment (st : State) (c t : Z) :
  (autoPlay st = false ->
   time (updateSimulation st) = time st /\
   day (updateSimulation st) = day st /\
   light (updateSimulation st) = light st /\
   temp (updateSimulation st) = temp st)
  /\ (co2 (handleCo2Input c st) = IZR c /\
      autoPlay (handleCo2Input c st) = autoPlay st /\
      co2 (updateSimulation (handleCo2Input c st)) = IZR c)
  /\ (autoPlay (handleManualInput 10 c t st) = false /\
      light (handleManualInput 10 c t st) = 10 /\
      light (updateSimulation (handleManualInput 10 c t st)) = 10).
Proof.
  split; [| split].
  - intros Ha.
    destruct (updateSimulation_paused_frame st Ha) as (? & ? & _ & ? & _ & ?).
    repeat split; assumption.
  - split; [reflexivity |]. split; [reflexivity |].
    rewrite updateSimulation_co2. reflexivity.
  - split; [reflexivity |]. split; [reflexivity |].
    destruct (updateSimulation_paused_frame (handleManualInput 10 c t st))
      as (_ & _ & _ & Hl & _); [reflexivity |].
    rewrite Hl. reflexivity.
Qed.

Lemma paused_tick_keeps_environment_witness :
  let st := togglePause state in
  time (updateSimulation st) = time st /\
  day (updateSimulation st) = day st /\
  light (updateSimulation st) = light st /\
  temp (updateSimulation st) = temp st.
Proof.
  apply (proj1 (paused_tick_keeps_environment (togglePause state) 40 25)).
  reflexivity.
Defined.

(** ** Runs *)

Lemma run_cons (e : Event) (evs : list Event) (st : State) :
  run (e :: evs) st = run evs (step st e).
Proof. reflexivity. Qed.

Lemma run_app (evs more : list Event) (st : State) :
  run (evs ++ more) st = run more (run evs st).
Proof. unfold run. apply fold_left_app. Qed.

Lemma step_biomass (st : State) (e : Event) :
  biomass (step st e) = match e with
                        | Tick => biomass (updateSimulation st)
                        | _ => biomass st
                        end.
Proof. destruct e; reflexivity. Qed.

Lemma step_biomass_mono (st : State) (e : Event) :
  biomass st <= biomass (step st e).
Proof.
  rewrite step_biomass. destruct e; try lra.
  rewrite updateSimulation_biomass. apply integrateBiomass_mono.
Qed.

Lemma step_biomass_bound (st : State) (e : Event) :
  biomass st <= 200.05 -> biomass (step st e) <= 200.05.
Proof.
  intros Hb. rewrite step_biomass. destruct e; try assumption.
  rewrite updateSimulation_biomass.
  apply integrateBiomass_bound; [apply calculateRate_le_100 | assumption].
Qed.

Lemma step_biomass_capped (st : State) (e : Event) :
  MAX_BIOMASS <= biomass st -> biomass (step st e) = biomass st.
Proof.
  intros Hb. rewrite step_biomass. destruct e; try reflexivity.
  rewrite updateSimulation_biomass. apply integrateBiomass_keep. now right.
Qed.

Lemma run_biomass_mono (evs : list Event) (st : State) :
  biomass st <= biomass (run evs st).
Proof.
  revert st. induction evs as [| e evs IH]; intros st.
  - cbn. lra.
  - rewrite run_cons.
    eapply Rle_trans; [apply (step_biomass_mono st e) | apply IH].
Qed.

Lemma run_biomass_bound (evs : list Event) (st : State) :
  biomass st <= 200.05 -> biomass (run evs st) <= 200.05.
Proof.
  revert st. induction evs as [| e evs IH]; intros st Hb.
  - exact Hb.
  - rewrite run_cons. apply IH, step_biomass_bound, Hb.
Qed.

Lemma run_biomass_capped (evs : list Event) (st : State) :
  MAX_BIOMASS <= biomass st -> biomass (run evs st) = biomass st.
Proof.
  revert st. induction evs as [| e evs IH]; intros st Hb.
  - reflexivity.
  - rewrite run_cons.
    assert (E : biomass (step st e) = biomass st)
      by (apply step_biomass_capped, Hb).
    rewrite IH; [exact E | rewrite E; exact Hb].
Qed.

(** ** The limiting factor is always written *)

Lemma calculateRate_limitingFactor (st : State) :
  limitingFactor (fst (calculateRate st)) = FLight \/
  limitingFactor (fst (calculateRate st)) = FCo2 \/
  limitingFactor (fst (calculateRate st)) = FTemp.
Proof.
  unfold calculateRate. cbv zeta. cbn [fst].
  repeat match goal with |- context [Req_dec_T ?a ?b] => destruct (Req_dec_T a b) end;
    cbn; auto.
Qed.

Lemma updateSimulation_limitingFactor (st : State) :
  limitingFactor (updateSimulation st) <> FNone.
Proof.
  rewrite updateSimulation_unfold. unfold set_biomass. cbn [limitingFactor].
  destruct (calculateRate_limitingFactor (calculateEnvironment st))
    as [-> | [-> | ->]]; discriminate.
Qed.

Lemma step_limitingFactor (st : State) (e : Event) :
  limitingFactor st <> FNone -> limitingFactor (step st e) <> FNone.
Proof.
  intros H. destruct e; try exact H. apply updateSimulation_limitingFactor.
Qed.

Lemma run_limitingFactor (evs : list Event) (st : State) :
  limitingFactor st <> FNone -> limitingFactor (run evs st) <> FNone.
Proof.
  revert st. induction evs as [| e evs IH]; intros st H.
  - exact H.
  - rewrite run_cons. apply IH, step_limitingFactor, H.
Qed.

Lemma run_tick_limitingFactor (evs : list Event) (st : State) :
  In Tick evs -> limitingFactor (run evs st) <> FNone.
Proof.
  revert st. induction evs as [| e evs IH]; intros st Hin.
  - destruct Hin.
  - rewrite run_cons. destruct Hin as [-> | Hin].
    + apply run_limitingFactor, updateSimulation_limitingFactor.
    + apply IH, Hin.
Qed.

(** C9. After [calculateRate], [limitingFactor] is ['light'], ['co2'] or
    ['temp'], never ['None'], also when the night override has forced the
    rate to 0.  In a run from the initial state, ['None'] is only seen
    while no frame has been executed yet. *)
Theorem limitingFactor_never_none (st : State) (evs : list Event) :
  (limitingFactor (fst (calculateRate st)) = FLight \/
   limitingFactor (fst (calculateRate st)) = FCo2 \/
   limitingFactor (fst (calculateRate st)) = FTemp)
  /\ limitingFactor (fst (calculateRate st)) <> FNone
  /\ limitingFactor state = FNone
  /\ (limitingFactor (run evs state) = FNone -> ~ In Tick evs).
Proof.
  split; [apply calculateRate_limitingFactor |].
  split.
  { destruct (calculateRate_limitingFactor st) as [-> | [-> | ->]];
      discriminate. }
  split; [reflexivity |].
  intros H Hin. exact (run_tick_limitingFactor evs state Hin H).
Qed.

Lemma limitingFactor_never_none_witness :
  ~ In Tick [PauseClick; Co2Input 50].
Proof.
  apply (proj2 (proj2 (proj2
           (limitingFactor_never_none state [PauseClick; Co2Input 50])))).
  reflexivity.
Defined.

(** ** The biomass cap *)

(** C10. Once the biomass has reached or passed [MAX_BIOMASS] = 200,
    nothing that follows changes it; a frame adds at most
    100 * 0.0005 = 0.05; and in every run from the initial state the
    biomass stays at or below 200.05. *)
Theorem biomass_frozen_at_cap (st : State) (evs : list Event) :
  (MAX_BIOMASS <= biomass st ->
   biomass (updateSimulation st) = biomass st /\
   biomass (run evs st) = biomass st)
  /\ biomass (updateSimulation st) <= biomass st + 0.05
  /\ biomass (run evs state) <= 200.05.
Proof.
  split; [| split].
  - intros Hb. split.
    + apply (step_biomass_capped st Tick Hb).
    + apply run_biomass_capped, Hb.
  - rewrite updateSimulation_biomass.
    apply integrateBiomass_step, calculateRate_le_100.
  - apply run_biomass_bound. cbn. lra.
Qed.

Lemma biomass_frozen_at_cap_witness :
  biomass (updateSimulation (set_biomass state 200)) = 200 /\
  biomass (run [Tick; Tick] (set_biomass state 200)) = 200.
Proof.
  apply (proj1 (biomass_frozen_at_cap (set_biomass state 200) [Tick; Tick])).
  unfold MAX_BIOMASS. cbn. lra.
Defined.

(** ** Biomass along a run *)

Lemma tempEffect_optimal (st : State) : temp st = 25 -> tempEffect st = 100.
Proof.
  intros Ht. rewrite tempEffect_temperatureEffect, Ht.
  unfold Spec.temperatureEffect. rewrite gaussian_25.
  destruct (Rlt_dec 100 1); lra.
Qed.

Lemma dimLight_rate (st : State) :
  dimLight st -> snd (calculateRate st) = 60.
Proof.
  intros (_ & Hl & Hc & Ht). rewrite calculateRate_snd.
  rewrite (tempEffect_optimal st Ht). unfold lightEffect, co2Effect.
  rewrite Hl, Hc.
  destruct (Rlt_dec 30 1); [lra |].
  unfold min3.
  rewrite (Rmin_left (100 * (30 / (30 + 20))) (100 * (100 / (100 + 20)))) by lra.
  rewrite Rmin_left by lra. lra.
Qed.

Lemma dimLight_tick (st : State) :
  dimLight st ->
  dimLight (updateSimulation st) /\
  biomass (updateSimulation st) = integrateBiomass (biomass st) 60.
Proof.
  intros H. pose proof H as (Ha & Hl & Hc & Ht). split.
  - destruct (updateSimulation_paused_frame st Ha)
      as (_ & _ & Ha' & Hl' & Hc' & Ht').
    unfold dimLight. rewrite Ha', Hl', Hc', Ht'. auto.
  - rewrite updateSimulation_biomass, (calculateEnvironment_paused st Ha).
    rewrite (dimLight_rate st H). reflexivity.
Qed.

Lemma dimLight_ticks (n : nat) (st : State) :
  dimLight st ->
  biomass st + 0.03 * INR n < MAX_BIOMASS + 0.03 ->
  biomass (run (repeat Tick n) st) = biomass st + 0.03 * INR n.
Proof.
  revert st. induction n as [| n IH]; intros st Hd Hb.
  - cbn. lra.
  - rewrite S_INR in *. pose proof (pos_INR n) as Hn.
    cbn [repeat]. rewrite run_cons. cbn [step].
    destruct (dimLight_tick st Hd) as [Hd' Hb'].
    rewrite integrateBiomass_grow in Hb' by lra.
    rewrite IH; [rewrite Hb'; lra | exact Hd' | rewrite Hb'; lra].
Qed.

Lemma repeat_Tick_valid (n : nat) : Forall valid_event (repeat Tick n).
Proof. induction n; cbn; constructor; [exact I | assumption]. Qed.

(** [overshootRun] only uses slider values inside their ranges, and it
    ends with biomass 200.01, above [MAX_BIOMASS]. *)
Lemma biomass_overshoots_cap :
  Forall valid_event overshootRun /\
  biomass (run overshootRun state) = 200.01 /\
  MAX_BIOMASS < biomass (run overshootRun state).
Proof.
  assert (Hn : INR (Z.to_nat 6167) = 6167).
  { rewrite INR_IZR_INZ, Z2Nat.id by lia. reflexivity. }
  assert (E : biomass (run overshootRun state) = 200.01).
  { unfold overshootRun. rewrite run_cons.
    rewrite dimLight_ticks.
    - rewrite Hn. cbn. lra.
    - repeat split.
    - rewrite Hn. unfold MAX_BIOMASS. cbn. lra. }
  split.
  - unfold overshootRun. constructor.
    + cbn. lia.
    + apply repeat_Tick_valid.
  - split; [exact E |]. rewrite E. unfold MAX_BIOMASS. lra.
Qed.

(** C1 (amended). In every run from the initial state whose slider values
    are in range (light and CO2 in [0,100], temperature in [0,50]), the
    biomass never decreases when the run is continued, and it never
    exceeds 200.05: the cap test precedes the addition, so the biomass can
    pass [MAX_BIOMASS] = 200 by less than one frame's increment. *)
Theorem biomass_monotone_bounded (evs more : list Event) :
  Forall valid_event evs -> Forall valid_event more ->
  biomass (run evs state) <= biomass (run (evs ++ more) state)
  /\ biomass (run evs state) <= 200.05.
Proof.
  intros _ _. split.
  - rewrite run_app. apply run_biomass_mono.
  - apply run_biomass_bound. cbn. lra.
Qed.

Lemma biomass_monotone_bounded_witness :
  biomass (run [Tick; ManualInput 10 40 25] state)
  <= biomass (run ([Tick; ManualInput 10 40 25] ++ [Tick; Co2Input 80]) state)
  /\ biomass (run [Tick; ManualInput 10 40 25] state) <= 200.05.
Proof.
  apply (biomass_monotone_bounded [Tick; ManualInput 10 40 25]
                                  [Tick; Co2Input 80]).
  - repeat constructor; cbn; lia.
  - repeat constructor; cbn; lia.
Defined.

(** ** The limiting factor in faint light *)

Lemma effect_pos (v : R) : 0 < v -> 0 < 100 * (v / (v + 20)).
Proof.
  intros Hv. apply Rmult_lt_0_compat; [lra |].
  apply Rdiv_lt_0_compat; lra.
Qed.

Lemma effect_faint (v : R) : 0 <= v -> v < 1 -> 100 * (v / (v + 20)) < 5.
Proof.
  intros H0 H1.
  assert (E : v / (v + 20) * (v + 20) = v) by (field; lra).
  set (q := v / (v + 20)) in *. nra.
Qed.

(** In faint light with some CO2 in the air, the overridden rate 0 equals
    neither the light score nor the CO2 score, and the last branch is
    taken. *)
Lemma faint_light_limiting (st : State) :
  0 < light st < 1 -> 0 < co2 st ->
  snd (calculateRate st) = 0 /\
  limitingFactor (fst (calculateRate st)) = FTemp.
Proof.
  intros Hl Hc.
  pose proof (effect_pos _ (proj1 Hl)) as Pl.
  pose proof (effect_pos _ Hc) as Pc.
  unfold calculateRate. cbv zeta. cbn [fst snd].
  destruct (Rlt_dec (light st) 1); [| lra].
  split; [reflexivity |].
  destruct (Req_dec_T 0 (lightEffect st)) as [E | _];
    [unfold lightEffect in E; lra |].
  destruct (Req_dec_T 0 (co2Effect st)) as [E | _];
    [unfold co2Effect in E; lra |].
  reflexivity.
Qed.

(** With light at 1 or more no override applies, and the reported factor
    is the first score equal to the minimum. *)
Lemma limitingFactor_by_day (st : State) :
  ~ light st < 1 ->
  limitingFactor (fst (calculateRate st))
  = Spec.limiting (lightEffect st) (co2Effect st) (tempEffect st).
Proof.
  intros Hl. unfold calculateRate, Spec.limiting. cbv zeta. cbn [fst].
  destruct (Rlt_dec (light st) 1) as [H | _]; [contradiction |].
  set (m := min3 (lightEffect st) (co2Effect st) (tempEffect st)).
  destruct (Req_dec_T m (lightEffect st)) as [E1 | N1];
    destruct (Req_dec_T (lightEffect st) m) as [E1' | N1'];
    try congruence; try reflexivity.
  destruct (Req_dec_T m (co2Effect st)) as [E2 | N2];
    destruct (Req_dec_T (co2Effect st) m) as [E2' | N2'];
    try congruence; reflexivity.
Qed.

(** At [duskState] (light 0.5, CO2 40, temperature 25) the light score is
    the strict minimum of the three scores, yet ['temp'] is reported. *)
Lemma faint_light_reports_temp :
  snd (calculateRate duskState) = 0
  /\ limitingFactor (fst (calculateRate duskState)) = FTemp
  /\ lightEffect duskState < co2Effect duskState
  /\ lightEffect duskState < tempEffect duskState
  /\ Spec.limiting (lightEffect duskState) (co2Effect duskState)
                   (tempEffect duskState) = FLight.
Proof.
  assert (Hl : lightEffect duskState = 100 * (0.5 / (0.5 + 20))) by reflexivity.
  assert (Hc : co2Effect duskState = 100 * (40 / (40 + 20))) by reflexivity.
  assert (Ht : tempEffect duskState = 100) by (apply tempEffect_optimal; reflexivity).
  destruct (faint_light_limiting duskState) as [Hr Hf]; [cbn; lra | cbn; lra |].
  split; [exact Hr |]. split; [exact Hf |].
  split; [lra |]. split; [lra |].
  unfold Spec.limiting, min3. cbv zeta.
  rewrite (Rmin_left (lightEffect duskState) (co2Effect duskState)) by lra.
  rewrite Rmin_left by lra.
  destruct (Req_dec_T (lightEffect duskState) (lightEffect duskState));
    [reflexivity | congruence].
Qed.

(** *** The same situation, reached by autoplay alone *)

Lemma updateSimulation_env (st : State) :
  let e := calculateEnvironment st in
  time (updateSimulation st) = time e /\
  autoPlay (updateSimulation st) = autoPlay e /\
  light (updateSimulation st) = light e /\
  co2 (updateSimulation st) = co2 e /\
  temp (updateSimulation st) = temp e /\
  growthRate (updateSimulation st) = snd (calculateRate e) /\
  limitingFactor (updateSimulation st) = limitingFactor (fst (calculateRate e)).
Proof.
  cbv zeta. rewrite updateSimulation_unfold.
  destruct (calculateRate_frame (calculateEnvironment st))
    as (Ht & _ & Hp & Hl & Hc & Hte & _).
  unfold set_biomass.
  cbn [time autoPlay light co2 temp growthRate limitingFactor].
  rewrite calculateRate_growthRate. repeat split; assumption.
Qed.

Lemma calculateEnvironment_autoplay (st : State) :
  autoPlay st = true -> time st + 0.02 < 24 ->
  let e := calculateEnvironment st in
  time e = time st + 0.02 /\ autoPlay e = true /\ co2 e = co2 st /\
  light e = deriveLight (time st + 0.02) /\
  temp e = deriveTemperature (time st + 0.02).
Proof.
  intros Ha Ht. cbv zeta. unfold calculateEnvironment, advanceClock.
  rewrite Ha. cbn.
  destruct (Rge_dec (time st + 0.02) 24); [lra |].
  cbn. rewrite Ha. repeat split; reflexivity.
Qed.

Lemma autoplay_ticks (n : nat) (st : State) :
  autoPlay st = true -> time st + 0.02 * INR n < 24 ->
  autoPlay (run (repeat Tick n) st) = true /\
  time (run (repeat Tick n) st) = time st + 0.02 * INR n /\
  co2 (run (repeat Tick n) st) = co2 st.
Proof.
  revert st. induction n as [| n IH]; intros st Ha Ht.
  - cbn. repeat split; [assumption | lra].
  - rewrite S_INR in *. pose proof (pos_INR n) as Hn.
    cbn [repeat]. rewrite run_cons. cbn [step].
    destruct (updateSimulation_env st) as (Et & Ep & _ & Ec & _).
    destruct (calculateEnvironment_autoplay st Ha) as (Et' & Ep' & Ec' & _);
      [lra |].
    rewrite Et' in Et. rewrite Ep' in Ep. rewrite Ec' in Ec.
    destruct (IH (updateSimulation st)) as (Ia & It & Ic);
      [exact Ep | rewrite Et; lra |].
    rewrite Ia, It, Ic, Et, Ec. repeat split; lra.
Qed.

Lemma run_snoc_Tick (n : nat) (st : State) :
  run (repeat Tick (S n)) st = updateSimulation (run (repeat Tick n) st).
Proof.
  replace (repeat Tick (S n)) with (repeat Tick n ++ [Tick]).
  - rewrite run_app. reflexivity.
  - symmetry. apply (repeat_cons n Tick).
Qed.

(** The light derived at 17.98 is positive and below 1. *)
Lemma deriveLight_dusk : 0 < deriveLight 17.98 < 1.
Proof.
  rewrite deriveLight_day by lra.
  replace ((17.98 - 6) / 12 * PI) with (PI - PI / 600) by lra.
  rewrite sin_PI_x.
  pose proof PI_RGT_0 as P0. pose proof PI_4 as P4.
  assert (H0 : 0 < PI / 600) by lra.
  pose proof (sin_lt_x _ H0) as Hub.
  assert (Hlb : 0 < sin (PI / 600)) by (apply sin_gt_0; lra).
  lra.
Qed.

Lemma deriveTemperature_range (t : R) : 10 <= deriveTemperature t <= 30.
Proof.
  unfold deriveTemperature. cbv zeta.
  pose proof (SIN_bound (P5.map (t - 8) 0 24 0 P5.TWO_PI)). lra.
Qed.

Lemma exp_2_le_9 : exp 2 <= 9.
Proof.
  replace 2 with (1 + 1) by ring. rewrite exp_plus.
  pose proof exp_le_3 as H3. pose proof (exp_pos 1) as H0. nra.
Qed.

(** Between 10 and 30 degrees the temperature score is above 11. *)
Lemma tempEffect_mild (st : State) : 10 <= temp st <= 30 -> 11 < tempEffect st.
Proof.
  intros Ht. rewrite tempEffect_temperatureEffect.
  unfold Spec.temperatureEffect.
  assert (G : 11 < Spec.gaussian (temp st)).
  { unfold Spec.gaussian. rewrite gaussian_exponent.
    assert (Hx : (temp st - 25) ^ 2 / 200 <= 2) by nra.
    assert (He : exp (Ropp 2) <= exp (- ((temp st - 25) ^ 2 / 200))).
    { destruct Hx as [Hx | Hx].
      - left. apply exp_increasing. lra.
      - rewrite Hx. apply Rle_refl. }
    rewrite (exp_Ropp 2) in He.
    pose proof exp_2_le_9 as H9. pose proof (exp_pos 2) as H0.
    assert (H19 : / 9 <= / exp 2) by (apply Rinv_le_contravar; lra).
    lra. }
  destruct (Rlt_dec (Spec.gaussian (temp st)) 1); lra.
Qed.

(** C3 (evaluation at the failing input). After 299 frames of autoplay
    from the initial state the clock shows 17.98 and the derived light is
    positive and below 1.  The light score is then the strict minimum of
    the three scores, so the first score equal to the minimum is the light
    score; [calculateRate] has forced the rate to 0 and reported
    ['temp']. *)
Theorem dusk_frame_reports_temp :
  let st := run duskRun state in
  time st = 17.98
  /\ 0 < light st < 1
  /\ growthRate st = 0
  /\ limitingFactor st = FTemp
  /\ lightEffect st < co2Effect st
  /\ lightEffect st < tempEffect st
  /\ Spec.limiting (lightEffect st) (co2Effect st) (tempEffect st) = FLight.
Proof.
  cbv zeta. unfold duskRun. rewrite run_snoc_Tick.
  assert (Hn : INR 298 = 298).
  { rewrite INR_IZR_INZ. reflexivity. }
  destruct (autoplay_ticks 298 state) as (Ha & Ht & Hc);
    [reflexivity | rewrite Hn; cbn; lra |].
  rewrite Hn in Ht. cbn [time co2 state] in Ht, Hc.
  set (s := run (repeat Tick 298) state) in *.
  destruct (updateSimulation_env s) as (Et & _ & El & Ec & Ete & Eg & Ef).
  destruct (calculateEnvironment_autoplay s Ha) as (Et' & _ & Ec' & El' & Ete');
    [lra |].
  replace (time s + 0.02) with 17.98 in * by lra.
  pose proof deriveLight_dusk as HL.
  pose proof (deriveTemperature_range 17.98) as HT.
  destruct (faint_light_limiting (calculateEnvironment s)) as [Hr Hf];
    [rewrite El'; exact HL | rewrite Ec', Hc; lra |].
  set (st := updateSimulation s) in *.
  assert (Hlight : light st = deriveLight 17.98) by congruence.
  assert (Hco2 : co2 st = 40) by congruence.
  assert (Htemp : temp st = deriveTemperature 17.98) by congruence.
  assert (Sl : 0 < lightEffect st < 5).
  { unfold lightEffect. rewrite Hlight. split;
      [apply effect_pos | apply effect_faint]; lra. }
  assert (Sc : co2Effect st = 100 * (40 / (40 + 20)))
    by (unfold co2Effect; rewrite Hco2; reflexivity).
  assert (St : 11 < tempEffect st)
    by (apply tempEffect_mild; rewrite Htemp; exact HT).
  split; [congruence |].
  split; [rewrite Hlight; exact HL |].
  split; [congruence |].
  split; [congruence |].
  split; [lra |]. split; [lra |].
  unfold Spec.limiting, min3. cbv zeta.
  rewrite (Rmin_left (lightEffect st) (co2Effect st)) by lra.
  rewrite Rmin_left by lra.
  destruct (Req_dec_T (lightEffect st) (lightEffect st));
    [reflexivity | congruence].
Qed.

(** * Further properties of the simulation core *)

(** ** Ranges *)

Lemma effect_nonneg (v : R) : 0 <= v -> 0 <= 100 * (v / (v + 20)).
Proof.
  intros [Hv | <-].
  - left. apply effect_pos, Hv.
  - unfold Rdiv. rewrite Rmult_0_l, Rmult_0_r. apply Rle_refl.
Qed.

Lemma effect_le (v : R) : 0 <= v <= 100 -> 100 * (v / (v + 20)) <= 250 / 3.
Proof.
  intros Hv.
  assert (E : v / (v + 20) * (v + 20) = v) by (field; lra).
  set (q := v / (v + 20)) in *. nra.
Qed.

Lemma min3_le_l (a b c : R) : min3 a b c <= a.
Proof. unfold min3. eapply Rle_trans; apply Rmin_l. Qed.

Lemma min3_le_m (a b c : R) : min3 a b c <= b.
Proof. unfold min3. eapply Rle_trans; [apply Rmin_l | apply Rmin_r]. Qed.

Lemma min3_glb (a b c m : R) : m <= a -> m <= b -> m <= c -> m <= min3 a b c.
Proof. intros. unfold min3. repeat apply Rmin_glb; assumption. Qed.

Lemma min3_glb_lt (a b c m : R) : m < a -> m < b -> m < c -> m < min3 a b c.
Proof. intros. unfold min3. repeat apply Rmin_glb_lt; assumption. Qed.

Lemma calculateRate_range (st : State) :
  0 <= light st <= 100 -> 0 <= co2 st ->
  0 <= snd (calculateRate st) <= 250 / 3.
Proof.
  intros Hl Hc. rewrite calculateRate_snd.
  destruct (Rlt_dec (light st) 1); [lra |]. split.
  - apply min3_glb; [apply effect_nonneg; lra | apply effect_nonneg, Hc |
                     apply tempEffect_bounds].
  - eapply Rle_trans; [apply min3_le_l | apply effect_le, Hl].
Qed.

Lemma deriveLight_le_100 (t : R) : deriveLight t <= 100.
Proof.
  destruct (Rlt_dec t 6) as [H6 | H6];
    [rewrite deriveLight_night by (left; exact H6); lra |].
  destruct (Rlt_dec 18 t) as [H18 | H18];
    [rewrite deriveLight_night by (right; exact H18); lra |].
  rewrite deriveLight_day by lra.
  pose proof (SIN_bound ((t - 6) / 12 * PI)). lra.
Qed.

Lemma advanceClock_fields (st : State) :
  time (advanceClock st)
  = (if Rge_dec (time st + 0.02) 24 then 0 else time st + 0.02) /\
  day (advanceClock st)
  = (if Rge_dec (time st + 0.02) 24 then day st + 1 else day st)%Z /\
  autoPlay (advanceClock st) = autoPlay st /\
  light (advanceClock st) = light st /\ co2 (advanceClock st) = co2 st /\
  temp (advanceClock st) = temp st /\
  growthRate (advanceClock st) = growthRate st.
Proof.
  unfold advanceClock. cbn.
  destruct (Rge_dec (time st + 0.02) 24); cbn; repeat split; reflexivity.
Qed.

Lemma calculateEnvironment_fields (st : State) :
  autoPlay st = true ->
  time (calculateEnvironment st) = time (advanceClock st) /\
  day (calculateEnvironment st) = day (advanceClock st) /\
  light (calculateEnvironment st) = deriveLight (time (advanceClock st)) /\
  co2 (calculateEnvironment st) = co2 st /\
  temp (calculateEnvironment st) = deriveTemperature (time (advanceClock st)).
Proof.
  intros Ha. unfold calculateEnvironment. rewrite Ha. cbn.
  destruct (advanceClock_fields st) as (_ & _ & _ & _ & Hc & _).
  repeat split; try reflexivity. exact Hc.
Qed.

Lemma updateSimulation_day (st : State) :
  day (updateSimulation st) = day (calculateEnvironment st).
Proof.
  rewrite updateSimulation_unfold. unfold set_biomass. cbn [day].
  apply calculateRate_frame.
Qed.

Lemma calculateEnvironment_inRange (st : State) :
  inRange st ->
  let e := calculateEnvironment st in
  0 <= time e < 24 /\ 0 <= light e <= 100 /\ 0 <= co2 e <= 100 /\
  0 <= temp e <= 50 /\ (1 <= day e)%Z.
Proof.
  intros (Ht & Hl & Hc & Hte & _ & Hd). cbv zeta.
  destruct (autoPlay st) eqn:Ha.
  - destruct (calculateEnvironment_fields st Ha) as (-> & -> & -> & -> & ->).
    destruct (advanceClock_fields st) as (-> & -> & _).
    pose proof (deriveTemperature_range
                  (if Rge_dec (time st + 0.02) 24 then 0 else time st + 0.02)).
    split; [destruct (Rge_dec (time st + 0.02) 24); lra |].
    split; [split; [apply deriveLight_nonneg | apply deriveLight_le_100] |].
    split; [exact Hc |]. split; [lra |].
    destruct (Rge_dec (time st + 0.02) 24); lia.
  - rewrite (calculateEnvironment_paused st Ha). repeat split; tauto.
Qed.

Lemma updateSimulation_inRange (st : State) :
  inRange st -> inRange (updateSimulation st).
Proof.
  intros H.
  destruct (calculateEnvironment_inRange st H) as (Ht & Hl & Hc & Hte & Hd).
  unfold inRange. rewrite updateSimulation_day.
  destruct (updateSimulation_env st) as (-> & _ & -> & -> & -> & -> & _).
  repeat split; try tauto; apply calculateRate_range; tauto.
Qed.

Lemma step_inRange (st : State) (e : Event) :
  valid_event e -> inRange st -> inRange (step st e).
Proof.
  intros Hv H. destruct e as [| l c t | c |].
  - apply updateSimulation_inRange, H.
  - destruct Hv as ((L0 & L1) & (C0 & C1) & (T0 & T1)).
    destruct H as (Ht & _ & _ & _ & Hg & Hd).
    apply IZR_le in L0, L1, C0, C1, T0, T1.
    unfold inRange. cbn. repeat split; tauto.
  - destruct Hv as (C0 & C1). destruct H as (Ht & Hl & _ & Hte & Hg & Hd).
    apply IZR_le in C0, C1.
    unfold inRange. cbn. repeat split; tauto.
  - exact H.
Qed.

Lemma run_inRange (evs : list Event) (st : State) :
  Forall valid_event evs -> inRange st -> inRange (run evs st).
Proof.
  revert st. induction evs as [| e evs IH]; intros st Hv H.
  - exact H.
  - rewrite run_cons. inversion Hv; subst.
    apply IH; [assumption | apply step_inRange; assumption].
Qed.

Lemma state_inRange : inRange state.
Proof. unfold inRange. cbn. repeat split; try lra; lia. Qed.

(** X1. In every run from the initial state whose slider values are in
    range, the fields stay in the ranges noted beside them in the source:
    the time in [0,24), light and CO2 in [0,100], the temperature in
    [0,50], and the day counter at least 1. *)
Theorem state_fields_stay_in_range (evs : list Event) :
  Forall valid_event evs ->
  0 <= time (run evs state) < 24 /\
  0 <= light (run evs state) <= 100 /\
  0 <= co2 (run evs state) <= 100 /\
  0 <= temp (run evs state) <= 50 /\
  (1 <= day (run evs state))%Z.
Proof.
  intros Hv.
  destruct (run_inRange evs state Hv state_inRange)
    as (Ht & Hl & Hc & Hte & _ & Hd).
  repeat split; tauto.
Qed.

Lemma state_fields_stay_in_range_witness :
  0 <= time (run [Tick; ManualInput 100 0 50; Tick] state) < 24 /\
  0 <= light (run [Tick; ManualInput 100 0 50; Tick] state) <= 100 /\
  0 <= co2 (run [Tick; ManualInput 100 0 50; Tick] state) <= 100 /\
  0 <= temp (run [Tick; ManualInput 100 0 50; Tick] state) <= 50 /\
  (1 <= day (run [Tick; ManualInput 100 0 50; Tick] state))%Z.
Proof.
  apply (state_fields_stay_in_range [Tick; ManualInput 100 0 50; Tick]).
  repeat constructor; cbn; lia.
Defined.

(** X2. In every such run the growth rate stays between 0 and 83.34: the
    rate is at most the light score, and while light is at most 100 the
    light score 100 * (light / (light + 20)) is at most 250/3 (which the
    doubles round to 83.33333333333334). *)
Theorem growthRate_below_84 (evs : list Event) :
  Forall valid_event evs ->
  0 <= growthRate (run evs state) <= 83.34.
Proof.
  intros Hv.
  destruct (run_inRange evs state Hv state_inRange) as (_ & _ & _ & _ & Hg & _).
  lra.
Qed.

Lemma growthRate_below_84_witness :
  0 <= growthRate (run [ManualInput 100 100 25; Tick] state) <= 83.34.
Proof.
  apply (growthRate_below_84 [ManualInput 100 100 25; Tick]).
  repeat constructor; cbn; lia.
Defined.

(** ** When the rate is zero *)

Lemma exp_4_le_81 : exp 4 <= 81.
Proof.
  replace 4 with (2 + 2) by ring. rewrite exp_plus.
  pose proof exp_2_le_9 as H9. pose proof (exp_pos 2) as H0. nra.
Qed.

Lemma gaussian_above_1 (t : R) : 0 <= t <= 50 -> 1 < Spec.gaussian t.
Proof.
  intros Ht. unfold Spec.gaussian. rewrite gaussian_exponent.
  assert (Hx : (t - 25) ^ 2 / 200 <= 4) by nra.
  assert (He : exp (Ropp 4) <= exp (- ((t - 25) ^ 2 / 200))).
  { destruct Hx as [Hx | Hx].
    - left. apply exp_increasing. lra.
    - rewrite Hx. apply Rle_refl. }
  rewrite (exp_Ropp 4) in He.
  pose proof exp_4_le_81 as H81. pose proof (exp_pos 4) as H0.
  assert (H181 : / 81 <= / exp 4) by (apply Rinv_le_contravar; lra).
  lra.
Qed.

Lemma tempEffect_above_1 (st : State) : 0 <= temp st <= 50 -> 1 < tempEffect st.
Proof.
  intros Ht. rewrite tempEffect_temperatureEffect.
  unfold Spec.temperatureEffect. pose proof (gaussian_above_1 _ Ht).
  destruct (Rlt_dec (Spec.gaussian (temp st)) 1); lra.
Qed.

(** X3. For every temperature the slider allows (0 to 50) the cut-off of
    [calculateRate] ("below 1 becomes 0") does not apply: the temperature
    score is the plain Gaussian and lies above 1. *)
Theorem temperature_cutoff_not_reached (st : State) :
  0 <= temp st <= 50 ->
  tempEffect st = 100 * exp (- ((temp st - 25) ^ 2) / 200) /\
  1 < tempEffect st.
Proof.
  intros Ht. split; [| apply tempEffect_above_1, Ht].
  rewrite tempEffect_temperatureEffect. unfold Spec.temperatureEffect.
  pose proof (gaussian_above_1 _ Ht).
  destruct (Rlt_dec (Spec.gaussian (temp st)) 1); [lra | reflexivity].
Qed.

Lemma temperature_cutoff_not_reached_witness :
  tempEffect (handleManualInput 50 40 0 state)
  = 100 * exp (- ((temp (handleManualInput 50 40 0 state) - 25) ^ 2) / 200) /\
  1 < tempEffect (handleManualInput 50 40 0 state).
Proof.
  apply (temperature_cutoff_not_reached (handleManualInput 50 40 0 state)).
  cbn. lra.
Defined.

(** X4. With light and CO2 not negative and the temperature between 0 and
    50, [calculateRate] returns 0 exactly when the light is below 1 or
    there is no CO2: the temperature alone never stops growth. *)
Theorem rate_zero_iff_dark_or_no_co2 (st : State) :
  0 <= light st -> 0 <= co2 st -> 0 <= temp st <= 50 ->
  (snd (calculateRate st) = 0 <-> light st < 1 \/ co2 st = 0).
Proof.
  intros Hl Hc Ht. rewrite calculateRate_snd.
  pose proof (tempEffect_above_1 st Ht) as HT.
  destruct (Rlt_dec (light st) 1) as [Hd | Hd]; [tauto |].
  split.
  - intros Hm. right.
    destruct Hc as [Hc | Hc]; [| symmetry; exact Hc].
    exfalso.
    assert (0 < min3 (lightEffect st) (co2Effect st) (tempEffect st)).
    { apply min3_glb_lt; [apply effect_pos; lra | apply effect_pos, Hc | lra]. }
    lra.
  - intros [Hd' | Hz]; [contradiction |].
    apply Rle_antisym.
    + eapply Rle_trans; [apply min3_le_m |].
      unfold co2Effect. rewrite Hz. unfold Rdiv. rewrite Rmult_0_l, Rmult_0_r.
      apply Rle_refl.
    + apply min3_glb; [apply effect_nonneg, Hl | apply effect_nonneg, Hc | lra].
Qed.

Lemma rate_zero_iff_dark_or_no_co2_witness :
  snd (calculateRate (handleManualInput 80 0 25 state)) = 0
  <-> light (handleManualInput 80 0 25 state) < 1
      \/ co2 (handleManualInput 80 0 25 state) = 0.
Proof.
  apply (rate_zero_iff_dark_or_no_co2 (handleManualInput 80 0 25 state));
    cbn; lra.
Defined.

(** X5. Night frames.  With [autoPlay] set, when the advanced time is
    before 6 or after 18 (the wrap at 24 included), the frame sets the
    light to 0 and the growth rate to 0, leaves the biomass as it was, and
    reports ['light'] as the limiting factor. *)
Theorem night_frame_no_growth (st : State) :
  autoPlay st = true ->
  time st + 0.02 < 6 \/ 18 < time st + 0.02 ->
  light (updateSimulation st) = 0 /\
  growthRate (updateSimulation st) = 0 /\
  biomass (updateSimulation st) = biomass st /\
  limitingFactor (updateSimulation st) = FLight.
Proof.
  intros Ha Ht.
  destruct (calculateEnvironment_fields st Ha) as (_ & _ & El & _).
  destruct (advanceClock_fields st) as (Et & _).
  assert (L0 : light (calculateEnvironment st) = 0).
  { rewrite El, Et. apply deriveLight_night.
    destruct (Rge_dec (time st + 0.02) 24); lra. }
  set (e := calculateEnvironment st) in *.
  assert (R0 : snd (calculateRate e) = 0).
  { rewrite calculateRate_snd, L0. destruct (Rlt_dec 0 1); [reflexivity | lra]. }
  assert (LE : lightEffect e = 0).
  { unfold lightEffect. rewrite L0. unfold Rdiv. ring. }
  destruct (updateSimulation_env st) as (_ & _ & -> & _ & _ & -> & ->).
  fold e. rewrite updateSimulation_biomass. fold e. rewrite R0.
  split; [exact L0 |]. split; [reflexivity |].
  split; [apply integrateBiomass_keep; left; apply Rle_refl |].
  unfold calculateRate in *. cbv zeta in *. cbn [fst snd] in *.
  rewrite R0, LE.
  destruct (Req_dec_T 0 0) as [_ | N]; [reflexivity | congruence].
Qed.

Lemma night_frame_no_growth_witness :
  light (updateSimulation (set_time state 22)) = 0 /\
  growthRate (updateSimulation (set_time state 22)) = 0 /\
  biomass (updateSimulation (set_time state 22)) = biomass (set_time state 22) /\
  limitingFactor (updateSimulation (set_time state 22)) = FLight.
Proof.
  apply (night_frame_no_growth (set_time state 22)).
  - reflexivity.
  - right. cbn. lra.
Defined.

(** ** Derived temperature *)

Lemma map_temperature (t : R) :
  P5.map (t - 8) 0 24 0 P5.TWO_PI = (t - 8) / 12 * PI.
Proof. unfold P5.map, P5.TWO_PI. field. Qed.

(** X6. The temperature derived from the time always lies between 10 and
    30; it is 30 at 14:00 and 10 at 02:00, so these are its daily maximum
    and minimum; and it has period 24, so the wrap of the clock at
    midnight causes no jump. *)
Theorem deriveTemperature_daily_cycle (t : R) :
  10 <= deriveTemperature t <= 30 /\
  deriveTemperature 14 = 30 /\
  deriveTemperature 2 = 10 /\
  deriveTemperature (t + 24) = deriveTemperature t.
Proof.
  split; [apply deriveTemperature_range |].
  unfold deriveTemperature. cbv zeta. rewrite !map_temperature.
  split; [| split].
  - replace ((14 - 8) / 12 * PI) with (PI / 2) by lra.
    rewrite sin_PI2. ring.
  - replace ((2 - 8) / 12 * PI) with (- (PI / 2)) by lra.
    rewrite sin_neg, sin_PI2. ring.
  - replace ((t + 24 - 8) / 12 * PI) with ((t - 8) / 12 * PI + 2 * INR 1 * PI)
      by (cbn [INR]; lra).
    rewrite sin_period. reflexivity.
Qed.

(** ** The clock along a run *)

Lemma updateSimulation_day_step (st : State) :
  (day st <= day (updateSimulation st) <= day st + 1)%Z.
Proof.
  rewrite updateSimulation_day.
  destruct (autoPlay st) eqn:Ha.
  - destruct (calculateEnvironment_fields st Ha) as (_ & -> & _).
    destruct (advanceClock_fields st) as (_ & -> & _).
    destruct (Rge_dec (time st + 0.02) 24); lia.
  - rewrite (calculateEnvironment_paused st Ha). lia.
Qed.

Lemma ticks_cons (e : Event) (evs : list Event) :
  ticks (e :: evs) = ((if isTick e then 1 else 0) + ticks evs)%nat.
Proof. unfold ticks. cbn. destruct (isTick e); reflexivity. Qed.

(** X7. The day counter never goes back, and in a run it grows by at most
    the number of frames in the run; slider and pause events leave it
    alone. *)
Theorem day_counter_monotone (evs : list Event) (st : State) :
  (day st <= day (run evs st) <= day st + Z.of_nat (ticks evs))%Z.
Proof.
  revert st. induction evs as [| e evs IH]; intros st.
  - cbn. lia.
  - rewrite run_cons, ticks_cons. specialize (IH (step st e)).
    destruct e; cbn [step isTick] in *;
      try (change (day (handleManualInput l c t st)) with (day st) in IH);
      try (change (day (handleCo2Input c st)) with (day st) in IH);
      try (change (day (togglePause st)) with (day st) in IH);
      try lia.
    pose proof (updateSimulation_day_step st). lia.
Qed.

Lemma autoplay_ticks_day (n : nat) (st : State) :
  autoPlay st = true -> time st + 0.02 * INR n < 24 ->
  day (run (repeat Tick n) st) = day st.
Proof.
  revert st. induction n as [| n IH]; intros st Ha Ht.
  - reflexivity.
  - rewrite S_INR in *. pose proof (pos_INR n) as Hn.
    cbn [repeat]. rewrite run_cons. cbn [step].
    destruct (updateSimulation_env st) as (Et & Ep & _).
    destruct (calculateEnvironment_autoplay st Ha) as (Et' & Ep' & _); [lra |].
    rewrite Et' in Et. rewrite Ep' in Ep.
    rewrite IH; [| exact Ep | rewrite Et; lra].
    rewrite updateSimulation_day.
    destruct (calculateEnvironment_fields st Ha) as (_ & -> & _).
    destruct (advanceClock_fields st) as (_ & -> & _).
    destruct (Rge_dec (time st + 0.02) 24); [lra | reflexivity].
Qed.

Lemma INR_le_1199 (n : nat) : (n <= 1199)%nat -> INR n <= 1199.
Proof.
  intros H. apply le_INR in H. rewrite (INR_IZR_INZ 1199) in H. exact H.
Qed.

(** With the time at 0 and real arithmetic the 1200th frame is the one
    that reaches 24 and starts the next day. *)
Lemma day_after_1200_frames (st : State) :
  autoPlay st = true -> time st = 0 ->
  autoPlay (run (repeat Tick 1200) st) = true /\
  time (run (repeat Tick 1200) st) = 0 /\
  day (run (repeat Tick 1200) st) = (day st + 1)%Z.
Proof.
  intros Ha H0. rewrite run_snoc_Tick.
  assert (Hn : INR 1199 = 1199) by (rewrite INR_IZR_INZ; reflexivity).
  destruct (autoplay_ticks 1199 st Ha) as (Hp & Ht & _); [rewrite Hn; lra |].
  pose proof (autoplay_ticks_day 1199 st Ha) as Hd.
  rewrite Hn in *. specialize (Hd ltac:(lra)).
  set (s := run (repeat Tick 1199) st) in *.
  destruct (updateSimulation_env s) as (-> & -> & _).
  rewrite updateSimulation_day.
  split.
  { unfold calculateEnvironment. rewrite Hp. cbn [autoPlay set_temp set_light].
    destruct (advanceClock_fields s) as (_ & _ & -> & _). exact Hp. }
  destruct (calculateEnvironment_fields s Hp) as (-> & -> & _).
  destruct (advanceClock_fields s) as (-> & -> & _).
  destruct (Rge_dec (time s + 0.02) 24); [| lra].
  rewrite Hd. split; reflexivity.
Qed.

(** X8. A simulated day lasts about 1200 frames.  From a state with
    [autoPlay] set and the time at 0, uninterrupted frames leave the day
    as it is up to the 1199th, with the time within 1e-9 of 0.02 * n, and
    from the 1201st to the 2399th frame the day counter is one more than
    at the start.  (Of the 1200th frame nothing is said: it is there that
    the sum of the steps is compared with 24.) *)
Theorem day_lasts_about_1200_frames (st : State) (n : nat) :
  autoPlay st = true -> time st = 0 ->
  ((n <= 1199)%nat ->
   day (run (repeat Tick n) st) = day st /\
   Rabs (time (run (repeat Tick n) st) - 0.02 * INR n) <= / 10 ^ 9) /\
  ((1201 <= n <= 2399)%nat ->
   day (run (repeat Tick n) st) = (day st + 1)%Z).
Proof.
  intros Ha H0. split.
  - intros Hn. apply INR_le_1199 in Hn.
    destruct (autoplay_ticks n st Ha) as (_ & Ht & _); [lra |].
    split; [apply autoplay_ticks_day; [exact Ha | lra] |].
    rewrite Ht, H0.
    replace (0 + 0.02 * INR n - 0.02 * INR n) with 0 by ring.
    rewrite Rabs_R0. lra.
  - intros Hn.
    destruct (day_after_1200_frames st Ha H0) as (Ha' & Ht' & Hd').
    replace n with (1200 + (n - 1200))%nat by lia.
    rewrite repeat_app, run_app.
    rewrite autoplay_ticks_day; [exact Hd' | exact Ha' |].
    assert (Hm : (n - 1200 <= 1199)%nat) by lia.
    apply INR_le_1199 in Hm. rewrite Ht'. lra.
Qed.

Lemma day_lasts_about_1200_frames_witness :
  day (run (repeat Tick 7) (set_time state 0)) = 1%Z /\
  day (run (repeat Tick 1201) (set_time state 0)) = 2%Z.
Proof.
  split.
  - apply (proj1 (day_lasts_about_1200_frames (set_time state 0) 7
                    eq_refl eq_refl)).
    lia.
  - apply (proj2 (day_lasts_about_1200_frames (set_time state 0) 1201
                    eq_refl eq_refl)).
    lia.
Defined.

(** ** What the panel shows *)

(** X9. In every run from the initial state whose slider values are in
    range, the limiting-factor label never reads "None" and one control
    group is always highlighted: the growth rate never reaches the 95 the
    display asks for.  Before the first frame the label reads
    "Temperature". *)
Theorem limit_label_never_none (evs : list Event) :
  Forall valid_event evs ->
  Display.limitText (run evs state) <> "None"%string /\
  Display.highlighted (run evs state) <> None /\
  Display.limitText state = "Temperature"%string.
Proof.
  intros Hv.
  pose proof (run_inRange evs state Hv state_inRange) as (_ & _ & _ & _ & Hg & _).
  unfold Display.limitText, Display.highlighted.
  split; [| split].
  - destruct (Rlt_dec (growthRate (run evs state)) 95); [| lra].
    destruct (limitingFactor (run evs state)); discriminate.
  - destruct (Rlt_dec (growthRate (run evs state)) 95); [| lra].
    destruct (limitingFactor (run evs state)); discriminate.
  - cbn. destruct (Rlt_dec 0 95); [reflexivity | lra].
Qed.

Lemma limit_label_never_none_witness :
  Display.limitText (run [ManualInput 100 100 25; Tick] state) <> "None"%string.
Proof.
  apply (proj1 (limit_label_never_none [ManualInput 100 100 25; Tick]
                  ltac:(repeat constructor; cbn; lia))).
Defined.

Lemma two_digits (m : Z) :
  (0 <= m <= 59)%Z ->
  String.length (if (m <? 10)%Z then ("0" ++ Display.showZ m)%string
                 else Display.showZ m) = 2%nat.
Proof.
  intros Hm.
  assert (Hall : forallb (fun k =>
            Nat.eqb (String.length
                       (if (k <? 10)%Z then ("0" ++ Display.showZ k)%string
                        else Display.showZ k)) 2)
            (List.map Z.of_nat (seq 0 60)) = true) by (vm_compute; reflexivity).
  rewrite forallb_forall in Hall.
  apply Nat.eqb_eq, Hall.
  replace m with (Z.of_nat (Z.to_nat m)) by lia.
  apply in_map, in_seq. lia.
Qed.

(** X10. The clock of the panel.  While the time is in [0,24) (as it is
    in every run, X1) the hour shown is between 0 and 23, the minute
    between 0 and 59 and the minute text has exactly two characters.  The
    clock is never behind by a minute or more, and it is ahead of the time
    by less than 1e-9 minute (in doubles the product with 60 can round up
    to the next whole minute: at 0.3 hours the clock shows 0:18). *)
Theorem clock_display_range (st : State) :
  0 <= time st < 24 ->
  (0 <= Display.clockH st <= 23)%Z /\
  (0 <= Display.clockM st <= 59)%Z /\
  String.length (Display.mStr st) = 2%nat /\
  IZR (60 * Display.clockH st + Display.clockM st) - / 10 ^ 9 <= 60 * time st
    < IZR (60 * Display.clockH st + Display.clockM st) + 1.
Proof.
  intros Ht.
  assert (HH : IZR (Display.clockH st) <= time st < IZR (Display.clockH st) + 1).
  { unfold Display.clockH. pose proof (base_Int_part (time st)). lra. }
  assert (HM : IZR (Display.clockM st)
               <= (time st - IZR (Display.clockH st)) * 60
               < IZR (Display.clockM st) + 1).
  { unfold Display.clockM.
    pose proof (base_Int_part ((time st - IZR (Display.clockH st)) * 60)). lra. }
  assert (H1 : (0 <= Display.clockH st <= 23)%Z).
  { split.
    - assert (-1 < Display.clockH st)%Z by (apply lt_IZR; lra). lia.
    - assert (Display.clockH st < 24)%Z by (apply lt_IZR; lra). lia. }
  assert (H2 : (0 <= Display.clockM st <= 59)%Z).
  { split.
    - assert (-1 < Display.clockM st)%Z by (apply lt_IZR; lra). lia.
    - assert (Display.clockM st < 60)%Z by (apply lt_IZR; lra). lia. }
  split; [exact H1 |]. split; [exact H2 |].
  split; [apply two_digits, H2 |].
  rewrite plus_IZR, mult_IZR. lra.
Qed.

Lemma clock_display_range_witness :
  (0 <= Display.clockH state <= 23)%Z /\
  (0 <= Display.clockM state <= 59)%Z.
Proof.
  pose proof (clock_display_range state ltac:(cbn; lra)) as (H1 & H2 & _).
  split; assumption.
Defined.

(** * The sky *)

Lemma sunAngle_eq (t : R) :
  P5.map t 6 18 PI (2 * PI) = (t - 6) / 12 * PI + PI.
Proof. unfold P5.map. field. Qed.

Lemma sunPos_some (width height t : R) :
  5 < t < 19 ->
  Sky.sunPos width height t
  = Some (width / 2 + cos ((t - 6) / 12 * PI + PI) * (width * 0.45),
          height * 0.9 - sin ((t - 6) / 12 * PI) * (height * 0.75)).
Proof.
  intros Ht. unfold Sky.sunPos. cbv zeta.
  destruct (Rgt_dec t 5); [| lra]. destruct (Rlt_dec t 19); [| lra].
  rewrite sunAngle_eq, neg_sin. f_equal. f_equal. ring.
Qed.

Lemma sunPos_none (width height t : R) :
  t <= 5 \/ 19 <= t -> Sky.sunPos width height t = None.
Proof.
  intros Ht. unfold Sky.sunPos. cbv zeta.
  destruct (Rgt_dec t 5); [| reflexivity].
  destruct (Rlt_dec t 19); [lra | reflexivity].
Qed.

Lemma moonPos_none (width height t : R) :
  6 < t < 18 -> Sky.moonPos width height t = None.
Proof.
  intros Ht. unfold Sky.moonPos. cbv zeta.
  destruct (Rge_dec t 18); [lra |]. destruct (Rle_dec t 6); [lra | reflexivity].
Qed.

Lemma moonPos_evening (width height t : R) :
  18 <= t ->
  Sky.moonPos width height t
  = Some (width / 2 + cos ((t - 18) / 12 * PI + PI) * (width * 0.45),
          height * 0.9 - sin ((t - 18) / 12 * PI) * (height * 0.75)).
Proof.
  intros Ht. unfold Sky.moonPos. cbv zeta.
  destruct (Rge_dec t 18); [| lra]. destruct (Rle_dec t 6); [lra |].
  replace (P5.map t 18 30 PI (2 * PI)) with ((t - 18) / 12 * PI + PI)
    by (unfold P5.map; field).
  rewrite neg_sin. f_equal. f_equal. ring.
Qed.

Lemma moonPos_morning (width height t : R) :
  t <= 6 ->
  Sky.moonPos width height t
  = Some (width / 2 + cos ((t + 6) / 12 * PI + PI) * (width * 0.45),
          height * 0.9 - sin ((t + 6) / 12 * PI) * (height * 0.75)).
Proof.
  intros Ht. unfold Sky.moonPos. cbv zeta.
  destruct (Rge_dec t 18); [lra |]. destruct (Rle_dec t 6); [| lra].
  replace (P5.map (t + 24) 18 30 PI (2 * PI)) with ((t + 6) / 12 * PI + PI)
    by (unfold P5.map; field).
  rewrite neg_sin. f_equal. f_equal. ring.
Qed.

(** X11. At every time at least one of sun and moon is drawn; both are
    drawn exactly in the two twilight hours, after 5 up to 6 and from 18
    to before 19. *)
Theorem sky_never_empty (width height t : R) :
  (Sky.sunPos width height t = None -> Sky.moonPos width height t <> None) /\
  (Sky.sunPos width height t <> None /\ Sky.moonPos width height t <> None
   <-> 5 < t <= 6 \/ 18 <= t < 19).
Proof.
  destruct (Rle_dec t 5) as [H5 | H5].
  - rewrite sunPos_none, moonPos_morning by lra.
    split; [discriminate |]. split; [intros [N _]; congruence | lra].
  - destruct (Rle_dec t 6) as [H6 | H6].
    + rewrite sunPos_some, moonPos_morning by lra.
      split; [discriminate |]. split; [lra | split; discriminate].
    + destruct (Rlt_dec t 18) as [H18 | H18].
      * rewrite sunPos_some, moonPos_none by lra.
        split; [discriminate |]. split; [intros [_ N]; congruence | lra].
      * destruct (Rlt_dec t 19) as [H19 | H19].
        -- rewrite sunPos_some, moonPos_evening by lra.
           split; [discriminate |]. split; [lra | split; discriminate].
        -- rewrite sunPos_none, moonPos_evening by lra.
           split; [discriminate |]. split; [intros [N _]; congruence | lra].
Qed.

Lemma sky_never_empty_witness :
  Sky.moonPos 800 600 2 <> None.
Proof.
  apply (proj1 (sky_never_empty 800 600 2)).
  apply sunPos_none. lra.
Defined.





(** ** The colour of the sky *)

Lemma lerpColor_inside (c1 c2 : P5Draw.Color) (amt : R) :
  0 <= amt <= 1 ->
  P5Draw.lerpColor c1 c2 amt
  = (P5Draw.lerp (P5Draw.red c1) (P5Draw.red c2) amt,
     P5Draw.lerp (P5Draw.green c1) (P5Draw.green c2) amt,
     P5Draw.lerp (P5Draw.blue c1) (P5Draw.blue c2) amt).
Proof.
  intros H. unfold P5Draw.lerpColor. cbv zeta.
  rewrite (Rmin_left amt 1) by lra. rewrite (Rmax_left amt 0) by lra.
  reflexivity.
Qed.

Lemma color_eq (r g b r' g' b' : R) :
  r = r' -> g = g' -> b = b' -> (r, g, b) = (r', g', b').
Proof. intros -> -> ->. reflexivity. Qed.

Ltac split_time_cases :=
  repeat match goal with
         | |- context [Rlt_dec ?a ?b] => destruct (Rlt_dec a b)
         end.

Ltac split_abs :=
  unfold Rabs;
  repeat match goal with
         | |- context [Rcase_abs ?a] => destruct (Rcase_abs a)
         end.

(** In every transition the interpolation amount lies in [0,1], so
    [lerpColor] never cuts it. *)
Lemma skyColor_linear (t : R) : Sky.skyColor t = skyLinear t.
Proof.
  unfold Sky.skyColor, skyLinear. split_time_cases; try reflexivity;
    (rewrite lerpColor_inside by (unfold P5.map; lra));
    unfold P5Draw.lerp, P5.map, Sky.cNight, Sky.cDawn, Sky.cDay,
      P5Draw.red, P5Draw.green, P5Draw.blue; cbn [fst snd];
    apply color_eq; lra.
Qed.

Lemma sky_red_lipschitz (s t : R) :
  Rabs (P5Draw.red (Sky.skyColor s) - P5Draw.red (Sky.skyColor t))
  <= 116.5 * Rabs (s - t).
Proof.
  rewrite !skyColor_linear. unfold skyLinear. split_time_cases;
    unfold P5Draw.red; cbn [fst snd]; split_abs; lra.
Qed.

Lemma sky_green_lipschitz (s t : R) :
  Rabs (P5Draw.green (Sky.skyColor s) - P5Draw.green (Sky.skyColor t))
  <= 80 * Rabs (s - t).
Proof.
  rewrite !skyColor_linear. unfold skyLinear. split_time_cases;
    unfold P5Draw.green; cbn [fst snd]; split_abs; lra.
Qed.

Lemma sky_blue_lipschitz (s t : R) :
  Rabs (P5Draw.blue (Sky.skyColor s) - P5Draw.blue (Sky.skyColor t))
  <= 72 * Rabs (s - t).
Proof.
  rewrite !skyColor_linear. unfold skyLinear. split_time_cases;
    unfold P5Draw.blue; cbn [fst snd]; split_abs; lra.
Qed.

Lemma skyColor_night (t : R) : t < 5 \/ 21 <= t -> Sky.skyColor t = Sky.cNight.
Proof.
  intros Ht. unfold Sky.skyColor. split_time_cases; try reflexivity; lra.
Qed.

Lemma updateSimulation_time (st : State) :
  time (updateSimulation st)
  = if autoPlay st
    then (if Rge_dec (time st + 0.02) 24 then 0 else time st + 0.02)
    else time st.
Proof.
  destruct (updateSimulation_env st) as (-> & _).
  destruct (autoPlay st) eqn:Ha.
  - destruct (calculateEnvironment_fields st Ha) as (-> & _).
    apply advanceClock_fields.
  - rewrite (calculateEnvironment_paused st Ha). reflexivity.
Qed.

(** Rounding to whole numbers moves two values less than one further
    apart. *)
Lemma round_step (a b : R) (k : Z) :
  Rabs (a - b) < IZR k ->
  (Z.abs (P5Draw.round a - P5Draw.round b) <= k)%Z.
Proof.
  intros H. unfold P5Draw.round.
  pose proof (base_Int_part (a + 1 / 2)) as [A1 A2].
  pose proof (base_Int_part (b + 1 / 2)) as [B1 B2].
  set (x := Int_part (a + 1 / 2)) in *. set (y := Int_part (b + 1 / 2)) in *.
  revert H. unfold Rabs. destruct (Rcase_abs (a - b)); intros H.
  - assert (U : (x - y < k + 1)%Z)
      by (apply lt_IZR; rewrite plus_IZR, minus_IZR; lra).
    assert (L : (- (k + 1) < x - y)%Z)
      by (apply lt_IZR; rewrite opp_IZR, plus_IZR, minus_IZR; lra).
    lia.
  - assert (U : (x - y < k + 1)%Z)
      by (apply lt_IZR; rewrite plus_IZR, minus_IZR; lra).
    assert (L : (- (k + 1) < x - y)%Z)
      by (apply lt_IZR; rewrite opp_IZR, plus_IZR, minus_IZR; lra).
    lia.
Qed.

Lemma round_between (a : R) (lo hi : Z) :
  IZR lo <= a <= IZR hi -> (lo <= P5Draw.round a <= hi)%Z.
Proof.
  intros [H1 H2]. unfold P5Draw.round.
  pose proof (base_Int_part (a + 1 / 2)) as [A1 A2].
  split.
  - assert (lo - 1 < Int_part (a + 1 / 2))%Z
      by (apply lt_IZR; rewrite minus_IZR; lra).
    lia.
  - assert (Int_part (a + 1 / 2) < hi + 1)%Z
      by (apply lt_IZR; rewrite plus_IZR; lra).
    lia.
Qed.

Lemma sky_channel_ranges (t : R) :
  20 <= P5Draw.red (Sky.skyColor t) <= 253 /\
  24 <= P5Draw.green (Sky.skyColor t) <= 206 /\
  19 <= P5Draw.blue (Sky.skyColor t) <= 235.
Proof.
  rewrite skyColor_linear. unfold skyLinear. split_time_cases;
    unfold P5Draw.red, P5Draw.green, P5Draw.blue; cbn [fst snd]; lra.
Qed.

(** The steps of the three channels from one frame to the next, before
    the colour is rounded. *)
Lemma sky_frame_steps (st : State) :
  0 <= time st < 24 ->
  Rabs (P5Draw.red (Sky.skyColor (time (updateSimulation st)))
        - P5Draw.red (Sky.skyColor (time st))) <= 2.33 /\
  Rabs (P5Draw.green (Sky.skyColor (time (updateSimulation st)))
        - P5Draw.green (Sky.skyColor (time st))) <= 1.6 /\
  Rabs (P5Draw.blue (Sky.skyColor (time (updateSimulation st)))
        - P5Draw.blue (Sky.skyColor (time st))) <= 1.44.
Proof.
  intros Ht. rewrite updateSimulation_time.
  assert (Z0 : forall c : R, Rabs (c - c) = 0)
    by (intros c; rewrite Rminus_diag; apply Rabs_R0).
  destruct (autoPlay st); [| rewrite !Z0; lra].
  destruct (Rge_dec (time st + 0.02) 24) as [Hw | Hw].
  + rewrite (skyColor_night 0), (skyColor_night (time st)) by lra.
    rewrite !Z0. lra.
  + pose proof (sky_red_lipschitz (time st + 0.02) (time st)) as Hr.
    pose proof (sky_green_lipschitz (time st + 0.02) (time st)) as Hg.
    pose proof (sky_blue_lipschitz (time st + 0.02) (time st)) as Hb.
    replace (time st + 0.02 - time st) with 0.02 in * by lra.
    rewrite (Rabs_pos_eq 0.02) in * by lra.
    lra.
Qed.

(** X14. The painted background has no jumps.  The channel values that
    [background] paints are whole numbers, red between 20 and 253, green
    between 24 and 206 and blue between 19 and 235; and from one frame to
    the next (time in [0,24), the reset at midnight included) red moves by
    at most 3 and green and blue by at most 2. *)
Theorem sky_colour_has_no_jumps (t : R) (st : State) :
  ((20 <= Sky.paintedRed t <= 253)%Z /\
   (24 <= Sky.paintedGreen t <= 206)%Z /\
   (19 <= Sky.paintedBlue t <= 235)%Z) /\
  (0 <= time st < 24 ->
   (Z.abs (Sky.paintedRed (time (updateSimulation st))
           - Sky.paintedRed (time st)) <= 3)%Z /\
   (Z.abs (Sky.paintedGreen (time (updateSimulation st))
           - Sky.paintedGreen (time st)) <= 2)%Z /\
   (Z.abs (Sky.paintedBlue (time (updateSimulation st))
           - Sky.paintedBlue (time st)) <= 2)%Z).
Proof.
  unfold Sky.paintedRed, Sky.paintedGreen, Sky.paintedBlue, Sky.background,
    P5Draw.levels. cbn [fst snd].
  split.
  - destruct (sky_channel_ranges t) as (Hr & Hg & Hb).
    split; [| split]; apply round_between; assumption.
  - intros Ht. destruct (sky_frame_steps st Ht) as (Hr & Hg & Hb).
    split; [| split]; apply round_step; lra.
Qed.

Lemma sky_colour_has_no_jumps_witness :
  (Z.abs (Sky.paintedRed (time (updateSimulation state))
          - Sky.paintedRed (time state)) <= 3)%Z.
Proof.
  apply (proj2 (sky_colour_has_no_jumps 0 state)). cbn. lra.
Defined.

(** * The roots *)

Import Roots.


Lemma flat_map_incl {A B} (f g : A -> list B) (l : list A) :
  Forall (fun a => incl (f a) (g a)) l -> incl (flat_map f l) (flat_map g l).
Proof.
  induction 1 as [| a l Ha _ IH]; cbn.
  - apply incl_refl.
  - apply incl_app; [apply incl_appl, Ha | apply incl_appr, IH].
Qed.

Lemma flat_map_length_le {A B} (f g : A -> list B) (l : list A) :
  Forall (fun a => (List.length (f a) <= List.length (g a))%nat) l ->
  (List.length (flat_map f l) <= List.length (flat_map g l))%nat.
Proof.
  induction 1 as [| a l Ha _ IH]; cbn.
  - lia.
  - rewrite !length_app. lia.
Qed.

Lemma draw_unfold (node : RootBranch) (energy : R) :
  drawFractalRoots node energy
  = if Rle_dec energy 0 then []
    else node ::
         (if Rgt_dec (energy - Roots.len node) 0
          then flat_map (fun child => drawFractalRoots child (energy - Roots.len node))
                        (children node)
          else []).
Proof. destruct node; reflexivity. Qed.

Lemma draw_monotone (node : RootBranch) :
  forall e1 e2, e1 <= e2 ->
    incl (drawFractalRoots node e1) (drawFractalRoots node e2) /\
    (List.length (drawFractalRoots node e1)
     <= List.length (drawFractalRoots node e2))%nat.
Proof.
  induction node as [x y a w l cs ex ey IH] using RootBranch_forall_ind.
  intros e1 e2 He. rewrite !draw_unfold. cbn [Roots.len children].
  destruct (Rle_dec e1 0); [split; [apply incl_nil_l | cbn; lia] |].
  destruct (Rle_dec e2 0); [lra |].
  destruct (Rgt_dec (e1 - l) 0).
  - destruct (Rgt_dec (e2 - l) 0); [| lra].
    split.
    + apply incl_cons; [left; reflexivity |]. apply incl_tl.
      apply flat_map_incl. eapply Forall_impl; [| exact IH].
      intros c Hc. apply Hc. lra.
    + cbn. apply le_n_S. apply flat_map_length_le.
      eapply Forall_impl; [| exact IH].
      intros c Hc. apply Hc. lra.
  - split; [apply incl_cons; [left; reflexivity | apply incl_nil_l] |].
    cbn. lia.
Qed.



Lemma grown_unfold (node : RootBranch) :
  grown node <->
  (endX node = Roots.x node + cos (P5Draw.radians (Roots.angle node)) * Roots.len node /\
   endY node = Roots.y node + sin (P5Draw.radians (Roots.angle node)) * Roots.len node /\
   (Roots.weight node <= 0.5 -> children node = []) /\
   (0.5 < Roots.weight node -> (1 <= List.length (children node) <= 3)%nat) /\
   Forall (childOf (endX node) (endY node) (Roots.angle node)
                   (Roots.weight node) (Roots.len node)) (children node)).
Proof.
  destruct node as [x y a w ln cs ex ey].
  cbn [grown endX endY Roots.x Roots.y Roots.angle Roots.len Roots.weight children].
  match goal with
  | |- _ /\ _ /\ _ /\ _ /\ ?F cs <-> _ =>
      assert (E : forall l0, F l0 <-> Forall (childOf ex ey a w ln) l0)
  end.
  { induction l0 as [| c l0 IH].
    - split; [constructor | trivial].
    - split.
      + intros [Hc Hl]. constructor; [exact Hc | apply IH, Hl].
      + intros H. inversion H; subst. split; [assumption | apply IH; assumption]. }
  rewrite E. tauto.
Qed.

Lemma flat_map_Forall_ext {A B} (f g : A -> list B) (l : list A) :
  Forall (fun a => f a = g a) l -> flat_map f l = flat_map g l.
Proof. induction 1 as [| a l Ha _ IH]; cbn; congruence. Qed.

Lemma allBranches_unfold (node : RootBranch) :
  allBranches node = node :: flat_map allBranches (children node).
Proof. destruct node; reflexivity. Qed.

Lemma levels_unfold (node : RootBranch) :
  levels node
  = S (fold_right (fun c m => Nat.max (levels c) m) O (children node)).
Proof. destruct node; reflexivity. Qed.

Lemma grown_full_draw (node : RootBranch) :
  grown node -> 0 <= Roots.len node ->
  forall e, 0 < e -> 10 * Roots.len node <= e ->
    drawFractalRoots node e = allBranches node.
Proof.
  induction node as [x y a w l cs ex ey IH] using RootBranch_forall_ind.
  intros Hg Hl e He0 He. rewrite draw_unfold, allBranches_unfold.
  apply grown_unfold in Hg. destruct Hg as (_ & _ & _ & _ & Hc).
  cbn [Roots.len children Roots.angle Roots.weight endX endY] in *.
  destruct (Rle_dec e 0); [lra |].
  destruct (Rgt_dec (e - l) 0); [| lra].
  f_equal. apply flat_map_Forall_ext.
  rewrite Forall_forall in *. intros c Hin.
  destruct (Hc c Hin) as (_ & _ & _ & Hlen & _ & Hgc).
  apply (IH c Hin Hgc); lra.
Qed.

Lemma fold_max_le (cs : list RootBranch) (n : nat) :
  Forall (fun c => (levels c <= n)%nat) cs ->
  (fold_right (fun c m => Nat.max (levels c) m) O cs <= n)%nat.
Proof. induction 1; cbn; lia. Qed.

Lemma fold_max_ge (cs : list RootBranch) (c : RootBranch) :
  In c cs ->
  (levels c <= fold_right (fun c m => Nat.max (levels c) m) O cs)%nat.
Proof.
  induction cs as [| d cs IH]; intros Hin; [destruct Hin |].
  cbn. destruct Hin as [-> | Hin]; [lia |]. specialize (IH Hin). lia.
Qed.

Lemma flat_map_length_bound {A B} (f : A -> list B) (l : list A) (m : nat) :
  Forall (fun a => (List.length (f a) <= m)%nat) l ->
  (List.length (flat_map f l) <= List.length l * m)%nat.
Proof.
  induction 1 as [| a l Ha _ IH]; cbn; [lia |].
  rewrite length_app. lia.
Qed.

Lemma grown_branch_count (node : RootBranch) :
  grown node -> forall n, (levels node <= n)%nat ->
  (List.length (allBranches node) <= branchBound n)%nat.
Proof.
  induction node as [x y a w l cs ex ey IH] using RootBranch_forall_ind.
  intros Hg n Hn. rewrite allBranches_unfold. rewrite levels_unfold in Hn.
  apply grown_unfold in Hg. destruct Hg as (_ & _ & H0 & H3 & Hc).
  cbn [Roots.len children Roots.angle Roots.weight endX endY] in *.
  destruct n as [| n]; [lia |]. cbn [branchBound List.length].
  apply le_n_S.
  assert (Hlen : (List.length cs <= 3)%nat).
  { destruct (Rle_dec w 0.5) as [Hw | Hw].
    - rewrite (H0 Hw). cbn. lia.
    - apply H3. lra. }
  assert (Hb : (List.length (flat_map allBranches cs)
                <= List.length cs * branchBound n)%nat).
  { apply flat_map_length_bound. rewrite Forall_forall in *.
    intros c Hin. destruct (Hc c Hin) as (_ & _ & _ & _ & _ & Hgc).
    apply (IH c Hin Hgc). pose proof (fold_max_ge cs c Hin). lia. }
  nia.
Qed.

Lemma between_bounds (lo hi u : R) :
  0 <= u < 1 ->
  (lo <= hi -> lo <= P5Draw.between lo hi u <= hi) /\
  (hi <= lo -> hi <= P5Draw.between lo hi u <= lo).
Proof.
  intros Hu. unfold P5Draw.between.
  destruct (Rgt_dec lo hi); split; intros H; nra.
Qed.

Lemma between_below (lo hi u : R) :
  0 <= u < 1 -> lo < hi -> P5Draw.between lo hi u < hi.
Proof.
  intros Hu H. unfold P5Draw.between. destruct (Rgt_dec lo hi); nra.
Qed.

Section ConstructorFacts.
Variable rnd : nat -> R.
Hypothesis rnd_unit : forall k, 0 <= rnd k < 1.

Lemma numChildren_range (k : nat) :
  (1 <= Z.to_nat (Int_part (fst (random rnd 1 4 k))) <= 3)%nat.
Proof.
  cbn [random fst].
  pose proof (proj1 (between_bounds 1 4 (rnd k) (rnd_unit k)) ltac:(lra)) as Hb.
  pose proof (between_below 1 4 (rnd k) (rnd_unit k) ltac:(lra)) as Hlt.
  pose proof (base_Int_part (P5Draw.between 1 4 (rnd k))) as [H1 H2].
  set (z := Int_part (P5Draw.between 1 4 (rnd k))) in *.
  assert (0 < z)%Z by (apply lt_IZR; lra).
  assert (z < 4)%Z by (apply lt_IZR; lra).
  lia.
Qed.

Lemma spawnChildren_returns build n (ex ey a w l : R) :
  builds build n -> 0 <= l -> w * 0.7 * 0.7 ^ n <= 0.5 ->
  forall todo k acc,
    Forall (fun c => childOf ex ey a w l c /\ (levels c <= S n)%nat) acc ->
    exists cs k',
      spawnChildren rnd build ex ey a w l todo k acc = Some (cs, k') /\
      List.length cs = (List.length acc + todo)%nat /\
      Forall (fun c => childOf ex ey a w l c /\ (levels c <= S n)%nat) cs.
Proof.
  intros Hb Hl Hw. induction todo as [| todo IH]; intros k acc Hacc.
  - exists acc, k. cbn. split; [reflexivity |]. split; [lia | exact Hacc].
  - cbn [spawnChildren].
    unfold random at 1 2. cbv zeta.
    pose proof (proj1 (between_bounds 0.7 0.9 (rnd k) (rnd_unit k))
                  ltac:(lra)) as Hr.
    pose proof (proj1 (between_bounds (-35) 35 (rnd (S k)) (rnd_unit (S k)))
                  ltac:(lra)) as H1.
    pose proof (proj1 (between_bounds (-50) 50 (rnd (S (S k)))
                         (rnd_unit (S (S k)))) ltac:(lra)) as H2.
    set (r := P5Draw.between 0.7 0.9 (rnd k)) in *.
    set (off1 := P5Draw.between (-35) 35 (rnd (S k))) in *.
    destruct (Rlt_dec w 2).
    + unfold random. cbv zeta.
      set (off2 := P5Draw.between (-50) 50 (rnd (S (S k)))) in *.
      destruct (Hb ex ey (a + off2) (w * 0.7) (l * r) (S (S (S k))))
        as (c & k' & E & Hx & Hy & Ha & Hwt & Hlen & Hg & Hlev);
        [nra | exact Hw |].
      rewrite E.
      destruct (IH k' (acc ++ [c])) as (cs & k'' & E' & Hn & Hcs).
      { apply Forall_app. split; [exact Hacc |]. constructor; [| constructor].
        split; [| exact Hlev]. unfold childOf. rewrite Hx, Hy, Ha, Hwt, Hlen.
        repeat split; try reflexivity; try assumption; try nra.
        replace (a + off2 - a) with off2 by ring.
        apply Rabs_le. lra. }
      exists cs, k''. split; [exact E' |]. split; [| exact Hcs].
      rewrite Hn, length_app. cbn. lia.
    + destruct (Hb ex ey (a + off1) (w * 0.7) (l * r) (S (S k)))
        as (c & k' & E & Hx & Hy & Ha & Hwt & Hlen & Hg & Hlev);
        [nra | exact Hw |].
      rewrite E.
      destruct (IH k' (acc ++ [c])) as (cs & k'' & E' & Hn & Hcs).
      { apply Forall_app. split; [exact Hacc |]. constructor; [| constructor].
        split; [| exact Hlev]. unfold childOf. rewrite Hx, Hy, Ha, Hwt, Hlen.
        repeat split; try reflexivity; try assumption; try nra.
        replace (a + off1 - a) with off1 by ring.
        apply Rabs_le. lra. }
      exists cs, k''. split; [exact E' |]. split; [| exact Hcs].
      rewrite Hn, length_app. cbn. lia.
Qed.

Lemma newRootBranch_S (fuel : nat) (x y a w l : R) (k : nat) :
  newRootBranch rnd (S fuel) x y a w l k
  = if Rgt_dec w 0.5 then
      match spawnChildren rnd (newRootBranch rnd fuel)
              (x + cos (P5Draw.radians a) * l) (y + sin (P5Draw.radians a) * l)
              a w l (Z.to_nat (Int_part (P5Draw.between 1 4 (rnd k)))) (S k) [] with
      | Some (cs, k') =>
          Some (mkRootBranch x y a w l cs
                  (x + cos (P5Draw.radians a) * l)
                  (y + sin (P5Draw.radians a) * l), k')
      | None => None
      end
    else Some (mkRootBranch x y a w l []
                 (x + cos (P5Draw.radians a) * l)
                 (y + sin (P5Draw.radians a) * l), k).
Proof. reflexivity. Qed.

Lemma newRootBranch_leaf (fuel : nat) (x y a w l : R) (k : nat) :
  w <= 0.5 ->
  newRootBranch rnd (S fuel) x y a w l k
  = Some (mkRootBranch x y a w l []
            (x + cos (P5Draw.radians a) * l) (y + sin (P5Draw.radians a) * l), k).
Proof.
  intros Hw. rewrite newRootBranch_S.
  destruct (Rgt_dec w 0.5); [lra | reflexivity].
Qed.

Lemma leaf_grown (x y a w l : R) :
  w <= 0.5 ->
  grown (mkRootBranch x y a w l []
           (x + cos (P5Draw.radians a) * l) (y + sin (P5Draw.radians a) * l)).
Proof.
  intros Hw. apply grown_unfold.
  cbn [Roots.x Roots.y Roots.angle Roots.weight Roots.len endX endY children].
  split; [reflexivity |]. split; [reflexivity |]. split; [reflexivity |].
  split; [intros; lra | constructor].
Qed.

Lemma leaf_builds (fuel n : nat) (x y a w l : R) (k : nat) :
  w <= 0.5 ->
  exists t k', newRootBranch rnd (S fuel) x y a w l k = Some (t, k') /\
    Roots.x t = x /\ Roots.y t = y /\ Roots.angle t = a /\
    Roots.weight t = w /\ Roots.len t = l /\ grown t /\
    (levels t <= S n)%nat.
Proof.
  intros Hw. rewrite newRootBranch_leaf by exact Hw.
  do 2 eexists. split; [reflexivity |].
  cbn [Roots.x Roots.y Roots.angle Roots.weight Roots.len].
  do 5 (split; [reflexivity |]).
  split; [apply leaf_grown, Hw | cbn; lia].
Qed.

Lemma newRootBranch_builds (n : nat) : builds (newRootBranch rnd (S n)) n.
Proof.
  induction n as [| n IH]; intros x y a w l k Hl Hw.
  - apply leaf_builds. cbn in Hw. lra.
  - destruct (Rle_dec w 0.5) as [Hle | Hgt]; [apply leaf_builds, Hle |].
    rewrite newRootBranch_S.
    destruct (Rgt_dec w 0.5); [| lra].
    pose proof (numChildren_range k) as Hnum. cbn [random fst] in Hnum.
    set (num := Z.to_nat (Int_part (P5Draw.between 1 4 (rnd k)))) in *.
    set (ex := x + cos (P5Draw.radians a) * l).
    set (ey := y + sin (P5Draw.radians a) * l).
    destruct (spawnChildren_returns (newRootBranch rnd (S n)) n ex ey a w l
                IH Hl) with (todo := num) (k := S k) (acc := @nil RootBranch)
      as (cs & k' & E & Hlen & Hcs);
      [cbn [pow] in Hw; lra | constructor |].
    rewrite E. do 2 eexists. split; [reflexivity |].
    cbn [Roots.x Roots.y Roots.angle Roots.weight Roots.len].
    do 5 (split; [reflexivity |]).
    cbn [List.length] in Hlen. split.
    + apply grown_unfold.
      cbn [Roots.x Roots.y Roots.angle Roots.weight Roots.len endX endY children].
      split; [reflexivity |]. split; [reflexivity |].
      split; [intros; lra |]. split; [intros; lia |].
      eapply Forall_impl; [| exact Hcs]. intros c Hc. apply Hc.
    + rewrite levels_unfold. cbn [children]. apply le_n_S.
      apply fold_max_le. eapply Forall_impl; [| exact Hcs].
      intros c Hc. apply Hc.
Qed.

Lemma spawnChildren_more_fuel b1 b2 (ex ey a w l : R) :
  (forall x y a w l k r, b1 x y a w l k = Some r -> b2 x y a w l k = Some r) ->
  forall todo k acc r,
    spawnChildren rnd b1 ex ey a w l todo k acc = Some r ->
    spawnChildren rnd b2 ex ey a w l todo k acc = Some r.
Proof.
  intros Hb. induction todo as [| todo IH]; intros k acc r; [trivial |].
  cbn [spawnChildren]. unfold random at 1 2 4 5. cbv zeta.
  destruct (Rlt_dec w 2).
  - unfold random. cbv zeta.
    match goal with
    | |- context [b1 ?p ?q ?u ?v ?z ?kk] =>
        destruct (b1 p q u v z kk) as [[c k'] |] eqn:E; [| discriminate];
        rewrite (Hb _ _ _ _ _ _ _ E)
    end.
    apply IH.
  - match goal with
    | |- context [b1 ?p ?q ?u ?v ?z ?kk] =>
        destruct (b1 p q u v z kk) as [[c k'] |] eqn:E; [| discriminate];
        rewrite (Hb _ _ _ _ _ _ _ E)
    end.
    apply IH.
Qed.

Lemma newRootBranch_more_fuel (fuel : nat) :
  forall x y a w l k r,
    newRootBranch rnd fuel x y a w l k = Some r ->
    newRootBranch rnd (S fuel) x y a w l k = Some r.
Proof.
  induction fuel as [| fuel IH]; intros x y a w l k r; [discriminate |].
  intros H. rewrite newRootBranch_S in *.
  destruct (Rgt_dec w 0.5); [| exact H].
  match type of H with
  | context [spawnChildren rnd ?b ?p ?q ?u ?v ?z ?t ?kk ?acc] =>
      destruct (spawnChildren rnd b p q u v z t kk acc) as [[cs k'] |] eqn:E;
        [| discriminate];
      rewrite (spawnChildren_more_fuel _ _ _ _ _ _ _ IH _ _ _ _ E)
  end.
  exact H.
Qed.

Lemma newRootBranch_extra_fuel (fuel extra : nat) x y a w l k r :
  newRootBranch rnd fuel x y a w l k = Some r ->
  newRootBranch rnd (fuel + extra) x y a w l k = Some r.
Proof.
  intros H. induction extra as [| extra IH].
  - rewrite Nat.add_0_r. exact H.
  - rewrite Nat.add_succ_r. apply newRootBranch_more_fuel, IH.
Qed.

End ConstructorFacts.

(** X15. Roots grow with the energy.  No line is drawn exactly when the
    energy is not positive; with positive energy the first line is the
    one of the node itself; and raising the energy never removes a line:
    every branch drawn with the smaller energy is drawn with the larger
    one, and at least as many lines are drawn. *)
Theorem roots_grow_with_energy (node : RootBranch) (e1 e2 : R) :
  (drawFractalRoots node e1 = [] <-> e1 <= 0) /\
  (0 < e1 -> hd_error (drawFractalRoots node e1) = Some node) /\
  (e1 <= e2 ->
   incl (drawFractalRoots node e1) (drawFractalRoots node e2) /\
   (List.length (drawFractalRoots node e1)
    <= List.length (drawFractalRoots node e2))%nat).
Proof.
  split; [| split].
  - rewrite draw_unfold. destruct (Rle_dec e1 0); split; intros H;
      try reflexivity; try assumption; [discriminate | lra].
  - intros H. rewrite draw_unfold. destruct (Rle_dec e1 0); [lra | reflexivity].
  - apply draw_monotone.
Qed.

Lemma roots_grow_with_energy_witness :
  hd_error (drawFractalRoots (mkRootBranch 0 0 90 0.4 5 [] 0 5) 3)
  = Some (mkRootBranch 0 0 90 0.4 5 [] 0 5) /\
  incl (drawFractalRoots (mkRootBranch 0 0 90 0.4 5 [] 0 5) 3)
       (drawFractalRoots (mkRootBranch 0 0 90 0.4 5 [] 0 5) 7).
Proof.
  pose proof (roots_grow_with_energy (mkRootBranch 0 0 90 0.4 5 [] 0 5) 3 7)
    as (_ & H1 & H2).
  split; [apply H1; lra | apply H2; lra].
Defined.

(** X16. The constructor returns.  If the numbers behind [random] lie in
    [0,1), the length is not negative and [fuel] factors of 0.7 bring the
    weight to 0.5 or below, then [fuel + 1] levels of recursion are enough
    (more fuel gives the same tree): the tree has the given start, angle,
    weight and length, has the shape [grown] describes and at most
    [fuel + 1] levels. *)
Theorem root_constructor_returns (rnd : nat -> R) (fuel : nat)
    (x y a w l : R) (k : nat) :
  (forall i, 0 <= rnd i < 1) -> 0 <= l -> w * 0.7 ^ fuel <= 0.5 ->
  exists t k',
    (forall extra,
        newRootBranch rnd (S fuel + extra) x y a w l k = Some (t, k')) /\
    Roots.x t = x /\ Roots.y t = y /\ Roots.angle t = a /\
    Roots.weight t = w /\ Roots.len t = l /\
    grown t /\ (levels t <= S fuel)%nat.
Proof.
  intros Hr Hl Hw.
  destruct (newRootBranch_builds rnd Hr fuel x y a w l k Hl Hw)
    as (t & k' & E & Hrest).
  exists t, k'. split; [| exact Hrest].
  intros extra. apply newRootBranch_extra_fuel, E.
Qed.

Lemma root_constructor_returns_witness :
  exists t k',
    (forall extra,
        newRootBranch (fun _ => 0.5) (8 + extra) 0 0 90 6 40 0 = Some (t, k')) /\
    Roots.x t = 0 /\ Roots.y t = 0 /\ Roots.angle t = 90 /\
    Roots.weight t = 6 /\ Roots.len t = 40 /\
    grown t /\ (levels t <= 8)%nat.
Proof.
  apply (root_constructor_returns (fun _ => 0.5) 7 0 0 90 6 40 0).
  - intros i. lra.
  - lra.
  - cbn [pow]. lra.
Defined.

Lemma setup_tree (rnd : nat -> R) (extra k : nat) (t : RootBranch) (k' : nat) :
  (forall i, 0 <= rnd i < 1) ->
  newRootBranch rnd (8 + extra) 0 0 90 6 40 k = Some (t, k') ->
  Roots.len t = 40 /\ grown t /\ (levels t <= 8)%nat.
Proof.
  intros Hr E.
  destruct (newRootBranch_builds rnd Hr 7 0 0 90 6 40 k)
    as (t0 & k0 & E0 & _ & _ & _ & _ & Hl & Hg & Hlev); [lra | cbn [pow]; lra |].
  apply (newRootBranch_extra_fuel rnd 8 extra) in E0.
  rewrite E0 in E. inversion E; subst. repeat split; assumption.
Qed.

(** X17. The root system of [setup] ([new RootBranch(0, 0, 90, 6, 40)]).
    Whatever [random] returns, the tree has at most 3280 branches, and
    once the biomass is 100 or more, [draw] hands [drawFractalRoots]
    enough energy to draw every one of them. *)
Theorem setup_roots_fully_drawn (rnd : nat -> R) (extra k : nat)
    (t : RootBranch) (k' : nat) (st : State) :
  (forall i, 0 <= rnd i < 1) ->
  newRootBranch rnd (8 + extra) 0 0 90 6 40 k = Some (t, k') ->
  (List.length (allBranches t) <= 3280)%nat /\
  (100 <= biomass st ->
   drawFractalRoots t (Draw.rootEnergy st) = allBranches t).
Proof.
  intros Hr E. destruct (setup_tree rnd extra k t k' Hr E) as (Hl & Hg & Hlev).
  split.
  - apply (grown_branch_count t Hg 8 Hlev).
  - intros Hb. unfold Draw.rootEnergy, P5.map.
    apply grown_full_draw; [exact Hg | rewrite Hl; lra | lra | rewrite Hl; lra].
Qed.

Lemma setup_roots_fully_drawn_witness :
  exists t,
    (List.length (allBranches t) <= 3280)%nat /\
    drawFractalRoots t (Draw.rootEnergy (set_biomass state 120))
    = allBranches t.
Proof.
  assert (Hr : forall i : nat, 0 <= (fun _ : nat => 0.5) i < 1)
    by (intros i; lra).
  destruct (newRootBranch_builds (fun _ => 0.5) Hr 7 0 0 90 6 40 0%nat)
    as (t & k' & E & _); [lra | cbn [pow]; lra |].
  exists t.
  destruct (setup_roots_fully_drawn (fun _ => 0.5) 0 0 t k' (set_biomass state 120)
              Hr E) as [H1 H2].
  split; [exact H1 | apply H2; cbn; lra].
Defined.

(** * The bubbles *)

Lemma firstn_prefix {A} (pre l : list A) :
  firstn (List.length pre) (pre ++ l) = pre.
Proof. induction pre as [| a pre IH]; cbn; [reflexivity | now rewrite IH]. Qed.

Lemma skipn_past {A} (pre : list A) (a : A) (l : list A) :
  skipn (S (List.length pre)) (pre ++ a :: l) = l.
Proof. induction pre as [| c pre IH]; cbn; [reflexivity | exact IH]. Qed.

Lemma nth_error_middle {A} (pre : list A) (a : A) (l : list A) :
  nth_error (pre ++ a :: l) (List.length pre) = Some a.
Proof. induction pre as [| c pre IH]; cbn; [reflexivity | exact IH]. Qed.

Lemma sweep_prefix (fc : R) (pre : list Bubbles.Bubble) :
  forall post,
    Bubbles.sweep fc (List.length pre) (pre ++ post)
    = Some (filter alive (List.map (Bubbles.update fc) pre) ++ post).
Proof.
  induction pre as [| b pre IH] using rev_ind; intros post.
  - reflexivity.
  - rewrite length_app, Nat.add_1_r. cbn [Bubbles.sweep].
    rewrite <- app_assoc. cbn [app].
    rewrite nth_error_middle.
    unfold Bubbles.replaceAt, Bubbles.splice1.
    rewrite firstn_prefix, skipn_past, firstn_prefix, skipn_past.
    rewrite map_app, filter_app. cbn [List.map filter]. unfold alive at 2.
    destruct (Bubbles.isDead (Bubbles.update fc b)); cbn [negb].
    + rewrite IH, app_nil_r. reflexivity.
    + rewrite IH, <- app_assoc. reflexivity.
Qed.

Lemma sweep_all (fc : R) (bs : list Bubbles.Bubble) :
  Bubbles.sweep fc (List.length bs) bs
  = Some (filter alive (List.map (Bubbles.update fc) bs)).
Proof.
  pose proof (sweep_prefix fc bs []) as H. rewrite !app_nil_r in H. exact H.
Qed.

(** X18. The loop over the bubbles, which runs from the last index to the
    first and removes dead bubbles on the way, never reads outside the
    array; it updates every bubble exactly once and leaves, in their
    order, exactly the updated bubbles that are not dead. *)
Theorem bubble_sweep_is_filter_map (frameCount : R)
    (bubbles : list Bubbles.Bubble) :
  Bubbles.sweep frameCount (List.length bubbles) bubbles
  = Some (filter (fun b => negb (Bubbles.isDead b))
                 (List.map (Bubbles.update frameCount) bubbles)).
Proof. apply sweep_all. Qed.

Lemma spaced_update fc b c :
  spaced b c -> spaced (Bubbles.update fc b) (Bubbles.update fc c).
Proof. unfold spaced. cbn. lra. Qed.

Lemma sorted_map_update fc l :
  StronglySorted spaced l ->
  StronglySorted spaced (List.map (Bubbles.update fc) l).
Proof.
  induction 1 as [| b l Hs IH Hf]; cbn; constructor; [exact IH |].
  rewrite Forall_map. eapply Forall_impl; [| exact Hf].
  intros c. apply spaced_update.
Qed.

Lemma sorted_filter (p : Bubbles.Bubble -> bool) l :
  StronglySorted spaced l -> StronglySorted spaced (filter p l).
Proof.
  induction 1 as [| b l Hs IH Hf]; cbn; [constructor |].
  destruct (p b); [| exact IH].
  constructor; [exact IH |].
  rewrite Forall_forall in *. intros c Hc. apply Hf.
  apply filter_In in Hc. tauto.
Qed.

Lemma sorted_snoc l b :
  StronglySorted spaced l -> Forall (fun c => spaced c b) l ->
  StronglySorted spaced (l ++ [b]).
Proof.
  induction 1 as [| c l Hs IH Hf]; intros Hb; cbn.
  - constructor; constructor.
  - inversion Hb; subst. constructor; [apply IH; assumption |].
    apply Forall_app. split; [exact Hf | constructor; [assumption | constructor]].
Qed.

Lemma orderly_after_sweep fc l :
  StronglySorted spaced l ->
  Forall (fun b => Bubbles.alpha b <= 255) l ->
  orderly (filter alive (List.map (Bubbles.update fc) l)).
Proof.
  intros Hs Hf. split.
  - apply sorted_filter, sorted_map_update, Hs.
  - rewrite Forall_forall in *. intros b Hb.
    apply filter_In in Hb. destruct Hb as [Hin Ha].
    apply in_map_iff in Hin. destruct Hin as (c & <- & Hc).
    specialize (Hf c Hc). unfold alive, Bubbles.isDead in Ha. cbn in *.
    destruct (Rlt_dec (Bubbles.alpha c - 2) 0); [discriminate | lra].
Qed.

Lemma sorted_length_bound l :
  StronglySorted spaced l ->
  forall lo, Forall (fun b => lo <= Bubbles.alpha b <= 253) l ->
  l = [] \/ lo + 2 * INR (List.length l) <= 255.
Proof.
  induction 1 as [| b l Hs IH Hf]; intros lo Hr; [left; reflexivity |].
  right. inversion Hr as [| ? ? Hb Hr']; subst.
  destruct (IH (Bubbles.alpha b + 2)) as [-> | Hl].
  - rewrite Forall_forall in *. intros c Hc.
    specialize (Hf c Hc). specialize (Hr' c Hc). unfold spaced in Hf. lra.
  - cbn. lra.
  - change (List.length (b :: l)) with (S (List.length l)).
    rewrite S_INR. lra.
Qed.

Lemma orderly_length l : orderly l -> (List.length l <= 127)%nat.
Proof.
  intros [Hs Hf].
  destruct (sorted_length_bound l Hs 0 Hf) as [-> | H]; [cbn; lia |].
  assert (Hz : (Z.of_nat (List.length l) < 128)%Z).
  { apply lt_IZR. rewrite <- INR_IZR_INZ. lra. }
  lia.
Qed.

Lemma newBubble_alpha rnd x y k :
  Bubbles.alpha (fst (Bubbles.newBubble rnd x y k)) = 255.
Proof. reflexivity. Qed.

Lemma spawnBubble_cases rnd width height st bs k :
  (exists k', Bubbles.spawnBubble rnd width height st bs k = (bs, k')) \/
  (exists b k', Bubbles.spawnBubble rnd width height st bs k = (bs ++ [b], k')
                /\ Bubbles.alpha b = 255).
Proof.
  unfold Bubbles.spawnBubble, Bubbles.newBubble, Roots.random1, Roots.random.
  cbv beta iota zeta.
  destruct (Rlt_dec (rnd k * 100) (growthRate st * 0.4)).
  - right. do 2 eexists. split; reflexivity.
  - left. eexists. reflexivity.
Qed.

Lemma frame_orderly rnd width height fc st bs k :
  orderly bs ->
  exists bs' k', Bubbles.frame rnd width height fc st bs k = Some (bs', k')
                 /\ orderly bs'.
Proof.
  intros [Hs Hf]. unfold Bubbles.frame.
  destruct (spawnBubble_cases rnd width height st bs k)
    as [(k' & ->) | (b & k' & -> & Hb)];
    rewrite sweep_all; do 2 eexists; (split; [reflexivity |]);
    apply orderly_after_sweep.
  - exact Hs.
  - eapply Forall_impl; [| exact Hf]. cbn. intros; lra.
  - apply sorted_snoc; [exact Hs |].
    eapply Forall_impl; [| exact Hf]. unfold spaced. cbn. intros; lra.
  - apply Forall_app. split.
    + eapply Forall_impl; [| exact Hf]. cbn. intros; lra.
    + constructor; [lra | constructor].
Qed.

Lemma frames_orderly rnd width height inputs :
  forall bs k, orderly bs ->
    exists bs' k', Bubbles.frames rnd width height inputs bs k = Some (bs', k')
                   /\ orderly bs'.
Proof.
  induction inputs as [| [fc st] inputs IH]; intros bs k Ho.
  - do 2 eexists. split; [reflexivity | exact Ho].
  - cbn [Bubbles.frames].
    destruct (frame_orderly rnd width height fc st bs k Ho) as (bs1 & k1 & -> & Ho1).
    apply IH, Ho1.
Qed.

Lemma orderly_nil : orderly [].
Proof. split; constructor. Qed.

(** X19. The bubble array stays small.  Whatever [random] returns and
    whatever the states are, any number of frames from the empty array
    runs through, and afterwards the array holds at most 127 bubbles,
    each with an alpha between 0 and 253. *)
Theorem bubble_count_bounded (rnd : nat -> R) (width height : R)
    (inputs : list (R * State)) (k : nat) :
  exists bs k',
    Bubbles.frames rnd width height inputs [] k = Some (bs, k') /\
    (List.length bs <= 127)%nat /\
    Forall (fun b => 0 <= Bubbles.alpha b <= 253) bs.
Proof.
  destruct (frames_orderly rnd width height inputs [] k orderly_nil)
    as (bs & k' & E & Ho).
  exists bs, k'. split; [exact E |]. split; [apply orderly_length, Ho | apply Ho].
Qed.

Lemma frame_dark rnd width height fc st bs k n :
  (forall i, 0 <= rnd i < 1) -> growthRate st = 0 -> fading n bs ->
  exists bs' k', Bubbles.frame rnd width height fc st bs k = Some (bs', k')
                 /\ fading (S n) bs'.
Proof.
  intros Hr Hg Hf. unfold Bubbles.frame, Bubbles.spawnBubble, Roots.random1.
  cbv beta iota zeta. rewrite Hg.
  pose proof (Hr k) as Hk.
  destruct (Rlt_dec (rnd k * 100) (0 * 0.4)); [lra |].
  rewrite sweep_all. do 2 eexists. split; [reflexivity |].
  unfold fading in *. rewrite Forall_forall in *. intros b Hb.
  apply filter_In in Hb. destruct Hb as [Hin Ha].
  apply in_map_iff in Hin. destruct Hin as (c & <- & Hc).
  specialize (Hf c Hc). unfold alive, Bubbles.isDead in Ha.
  cbn [Bubbles.alpha Bubbles.update] in *. rewrite S_INR.
  destruct (Rlt_dec (Bubbles.alpha c - 2) 0); [discriminate | lra].
Qed.

Lemma frames_dark rnd width height inputs :
  (forall i, 0 <= rnd i < 1) ->
  Forall (fun p => growthRate (snd p) = 0) inputs ->
  forall bs k n, fading n bs ->
    exists bs' k', Bubbles.frames rnd width height inputs bs k = Some (bs', k')
                   /\ fading (n + List.length inputs) bs'.
Proof.
  intros Hr. induction 1 as [| [fc st] inputs Hg _ IH]; intros bs k n Hf.
  - do 2 eexists. split; [reflexivity |]. cbn. rewrite Nat.add_0_r. exact Hf.
  - cbn [Bubbles.frames].
    destruct (frame_dark rnd width height fc st bs k n Hr Hg Hf)
      as (bs1 & k1 & -> & Hf1).
    destruct (IH bs1 k1 (S n) Hf1) as (bs2 & k2 & E & Hf2).
    exists bs2, k2. split; [exact E |].
    replace (n + List.length ((fc, st) :: inputs))%nat
      with (S n + List.length inputs)%nat by (cbn; lia).
    exact Hf2.
Qed.

Lemma frames_app rnd width height in1 in2 bs k :
  Bubbles.frames rnd width height (in1 ++ in2) bs k
  = match Bubbles.frames rnd width height in1 bs k with
    | Some (bs', k') => Bubbles.frames rnd width height in2 bs' k'
    | None => None
    end.
Proof.
  revert bs k. induction in1 as [| [fc st] in1 IH]; intros bs k; [reflexivity |].
  cbn [app Bubbles.frames].
  destruct (Bubbles.frame rnd width height fc st bs k) as [[bs1 k1] |];
    [apply IH | reflexivity].
Qed.

Lemma fading_127_nil n l : (127 <= n)%nat -> fading n l -> l = [].
Proof.
  intros Hn Hf. destruct l as [| b l]; [reflexivity | exfalso].
  inversion Hf; subst. apply le_INR in Hn. rewrite (INR_IZR_INZ 127) in Hn.
  cbn in Hn. lra.
Qed.

(** X20. No oxygen without growth.  If [random] returns numbers in
    [0,1), then after 127 or more consecutive frames in which the growth
    rate is 0 (as in every night frame) no bubble is left, whatever
    happened before. *)
Theorem bubbles_gone_after_dark (rnd : nat -> R) (width height : R)
    (before dark : list (R * State)) (k : nat) :
  (forall i, 0 <= rnd i < 1) ->
  Forall (fun p => growthRate (snd p) = 0) dark ->
  (127 <= List.length dark)%nat ->
  exists k', Bubbles.frames rnd width height (before ++ dark) [] k = Some ([], k').
Proof.
  intros Hr Hd Hn. rewrite frames_app.
  destruct (frames_orderly rnd width height before [] k orderly_nil)
    as (bs & k1 & -> & Ho).
  assert (Hf : fading 0 bs).
  { unfold fading. eapply Forall_impl; [| apply Ho]. cbn. intros; lra. }
  destruct (frames_dark rnd width height dark Hr Hd bs k1 0%nat Hf)
    as (bs' & k' & E & Hf').
  rewrite (fading_127_nil _ bs' Hn Hf') in E. exists k'. exact E.
Qed.

Lemma bubbles_gone_after_dark_witness :
  exists k',
    Bubbles.frames (fun _ => 0.5) 800 600 ([] ++ repeat (0, state) 127) [] 0
    = Some ([], k').
Proof.
  apply (bubbles_gone_after_dark (fun _ => 0.5) 800 600 [] (repeat (0, state) 127) 0).
  - intros i. lra.
  - apply Forall_forall. intros p Hp. apply repeat_spec in Hp. subst p.
    reflexivity.
  - rewrite repeat_length. apply le_n.
Defined.

(** * Particles, clouds, fireflies, plant and grass *)

Section ParticleFacts.
Variable rnd : nat -> R.
Hypothesis rnd_unit : forall k, 0 <= rnd k < 1.

Lemma reset_inBand width height k :
  inBand height (fst (Particles.reset rnd width height k)).
Proof.
  unfold Particles.reset, Roots.random1, Roots.random, inBand.
  cbv beta iota zeta. cbn [fst Particles.alpha Particles.vy Particles.y].
  pose proof (proj2 (between_bounds (height - 50) (height - 150) _
                       (rnd_unit (S k))) ltac:(lra)) as Hy.
  pose proof (proj2 (between_bounds (-0.5) (-1.0) _
                       (rnd_unit (S (S (S k))))) ltac:(lra)) as Hv.
  pose proof (proj1 (between_bounds 50 150 _
                       (rnd_unit (S (S (S (S k)))))) ltac:(lra)) as Ha.
  repeat split; lra.
Qed.

Lemma update_inBand width height p k :
  inBand height p -> inBand height (fst (Particles.update rnd width height p k)).
Proof.
  intros (Ha & Hv & Hy & Hb). unfold Particles.update. cbn [Particles.alpha].
  destruct (Rlt_dec (Particles.alpha p - 0.5) 0).
  - apply reset_inBand.
  - unfold inBand. cbn. repeat split; lra.
Qed.

Lemma co2Loop_safe width height (rest : list Particles.Particle) :
  forall i active k,
    active <= INR (i + List.length rest) ->
    exists ps k',
      Particles.co2Loop rnd width height i active rest k = Some (ps, k') /\
      List.length ps = List.length rest /\
      (Forall (inBand height) rest -> Forall (inBand height) ps) /\
      (active <= INR i -> ps = rest).
Proof.
  induction rest as [| p rest IH]; intros i active k Hle.
  - cbn [Particles.co2Loop]. cbn [List.length] in Hle. rewrite Nat.add_0_r in Hle.
    destruct (Rlt_dec (INR i) active); [lra |].
    do 2 eexists. repeat split; auto.
  - cbn [Particles.co2Loop].
    destruct (Rlt_dec (INR i) active) as [Hlt | Hge].
    + destruct (Particles.update rnd width height p k) as [p' k1] eqn:Eu.
      destruct (IH (S i) active k1) as (ps & k' & -> & Hlen & Hband & _).
      { replace (S i + List.length rest)%nat
          with (i + List.length (p :: rest))%nat by (cbn; lia). exact Hle. }
      do 2 eexists. split; [reflexivity |]. split; [cbn; lia |]. split.
      * intros Hf. inversion Hf; subst. constructor; [| apply Hband; assumption].
        replace p' with (fst (Particles.update rnd width height p k))
          by (rewrite Eu; reflexivity).
        apply update_inBand. assumption.
      * intros. lra.
    + do 2 eexists. repeat split; auto.
Qed.

End ParticleFacts.

(** X21. The loop of [draw] over the active CO2 particles never reads
    past the end of the array while the CO2 value is between 0 and 100:
    it returns, the array keeps its length, and with no CO2 no particle
    is touched. *)
Theorem co2_loop_stays_in_array (rnd : nat -> R) (width height : R)
    (st : State) (particles : list Particles.Particle) (k : nat) :
  (forall i, 0 <= rnd i < 1) -> 0 <= co2 st <= 100 ->
  exists ps k',
    Particles.drawCo2 rnd width height st particles k = Some (ps, k') /\
    List.length ps = List.length particles /\
    (co2 st = 0 -> ps = particles).
Proof.
  intros Hr Hc. unfold Particles.drawCo2.
  pose proof (pos_INR (List.length particles)) as Hn.
  destruct (co2Loop_safe rnd Hr width height particles 0
              (P5.map (co2 st) 0 100 0 (INR (List.length particles))) k)
    as (ps & k' & E & Hlen & _ & Hsame).
  { cbn [Nat.add]. unfold P5.map. nra. }
  exists ps, k'. split; [exact E |]. split; [exact Hlen |].
  intros H0. apply Hsame. unfold P5.map. rewrite H0. cbn. lra.
Qed.

Lemma co2_loop_stays_in_array_witness :
  exists ps k',
    Particles.drawCo2 (fun _ => 0.5) 800 600 state
      [Particles.mkParticle 10 500 0 (-0.7) 80 3] 0 = Some (ps, k') /\
    List.length ps = 1%nat.
Proof.
  destruct (co2_loop_stays_in_array (fun _ => 0.5) 800 600 state
              [Particles.mkParticle 10 500 0 (-0.7) 80 3] 0)
    as (ps & k' & E & Hlen & _).
  - intros i. lra.
  - cbn. lra.
  - exists ps, k'. split; assumption.
Defined.

(** X22. CO2 particles stay in a band above the ground.  With [random]
    in [0,1), every new particle is in the band [inBand], the loop of
    [draw] keeps every particle in it, and a particle in the band has an
    alpha between 0 and 150 and a height between [height - 450] and
    [height - 50]. *)
Theorem particles_stay_in_band (rnd : nat -> R) (width height : R)
    (st : State) (particles : list Particles.Particle) (k : nat) :
  (forall i, 0 <= rnd i < 1) -> 0 <= co2 st <= 100 ->
  Forall (inBand height) particles ->
  inBand height (fst (Particles.reset rnd width height k)) /\
  exists ps k',
    Particles.drawCo2 rnd width height st particles k = Some (ps, k') /\
    Forall (inBand height) ps /\
    Forall (fun p => 0 <= Particles.alpha p <= 150 /\
                     height - 450 <= Particles.y p <= height - 50) ps.
Proof.
  intros Hr Hc Hb. split; [apply reset_inBand, Hr |].
  unfold Particles.drawCo2.
  pose proof (pos_INR (List.length particles)) as Hn.
  destruct (co2Loop_safe rnd Hr width height particles 0
              (P5.map (co2 st) 0 100 0 (INR (List.length particles))) k)
    as (ps & k' & E & _ & Hband & _).
  { cbn [Nat.add]. unfold P5.map. nra. }
  exists ps, k'. split; [exact E |]. specialize (Hband Hb).
  split; [exact Hband |].
  eapply Forall_impl; [| exact Hband].
  intros p (Ha & Hv & Hy & Hd). repeat split; lra.
Qed.

Lemma particles_stay_in_band_witness :
  inBand 600 (fst (Particles.reset (fun _ => 0.5) 800 600 0)).
Proof.
  apply (proj1 (particles_stay_in_band (fun _ => 0.5) 800 600 state [] 0
                  ltac:(intros i; lra) ltac:(cbn; lra) (Forall_nil _))).
Defined.

(** X23. Clouds wrap around.  With [random] in [0,1) and a width that is
    not negative, a new cloud lies between -100 and [width + 100] with a
    speed between 0.2 and 0.5, and any number of updates keeps it
    there. *)
Theorem clouds_stay_on_stage (rnd : nat -> R) (width height : R) (k n : nat)
    (c : Clouds.Cloud) :
  (forall i, 0 <= rnd i < 1) -> 0 <= width ->
  onStage width (fst (Clouds.newCloud rnd width height k)) /\
  (onStage width c -> onStage width (Nat.iter n (Clouds.update width) c)).
Proof.
  intros Hr Hw. split.
  - unfold onStage, Clouds.newCloud, Roots.random1, Roots.random.
    cbv beta iota zeta. cbn [fst Clouds.x Clouds.speed].
    pose proof (Hr k) as Hk.
    pose proof (proj1 (between_bounds 0.2 0.5 _ (Hr (S (S k)))) ltac:(lra)).
    repeat split; nra.
  - intros Hc. induction n as [| n IH]; [exact Hc |].
    rewrite Nat.iter_succ. set (c' := Nat.iter n (Clouds.update width) c) in *.
    destruct IH as [Hx Hs].
    unfold onStage, Clouds.update. cbn [Clouds.x Clouds.speed].
    destruct (Rgt_dec (Clouds.x c' + Clouds.speed c') (width + 100));
      repeat split; lra.
Qed.

Lemma clouds_stay_on_stage_witness :
  onStage 800 (Nat.iter 5000 (Clouds.update 800) (Clouds.mkCloud 0 100 0.3)).
Proof.
  apply (proj2 (clouds_stay_on_stage (fun _ => 0.5) 800 600 0 5000
                  (Clouds.mkCloud 0 100 0.3) ltac:(intros i; lra) ltac:(lra))).
  unfold onStage. cbn. lra.
Defined.



Lemma drawFlower_blooms (growth : R) :
  120 < growth ->
  exists s, Plant.drawFlower growth = Some s /\ 0 < s <= 1.
Proof.
  intros Hg. unfold Plant.drawFlower, P5Draw.mapWithin, P5Draw.constrain, P5.map.
  cbv zeta. destruct (Rlt_dec 0 1); [| lra].
  set (v := (growth - 120) / (200 - 120) * (1 - 0) + 0).
  assert (Hv : 0 < v) by (subst v; lra).
  assert (Hm : 0 < Rmax (Rmin v 1) 0 <= 1).
  { unfold Rmax, Rmin. destruct (Rle_dec v 1); destruct (Rle_dec _ 0); lra. }
  destruct (Rle_dec (Rmax (Rmin v 1) 0) 0); [lra |].
  eexists. split; [reflexivity | exact Hm].
Qed.

Ltac split_growth :=
  repeat match goal with
         | |- context [Rgt_dec ?a ?b] =>
             destruct (Rgt_dec a b); try (exfalso; lra)
         end.

(** X25. The plant only gains parts.  For one frame count and two sizes
    [g1 <= g2], every leaf drawn at [g1] is drawn at [g2], at least as
    many parts are drawn at [g2], and never more than 9; every call of
    [drawFlower] is made with a size above 120, so the flower is drawn,
    with a scale between 0 and 1 (the early return is never taken); and
    up to size 20 neither leaf nor flower is drawn. *)
Theorem plant_only_gains_parts (frameCount g1 g2 : R) :
  g1 <= g2 ->
  incl (filter Plant.isLeaf (Plant.drawOrganicPlant frameCount g1))
       (filter Plant.isLeaf (Plant.drawOrganicPlant frameCount g2)) /\
  (List.length (Plant.drawOrganicPlant frameCount g1)
   <= List.length (Plant.drawOrganicPlant frameCount g2) <= 9)%nat /\
  (forall x y g, In (Plant.FlowerCall x y g) (Plant.drawOrganicPlant frameCount g1) ->
     exists s, Plant.drawFlower g = Some s /\ 0 < s <= 1) /\
  (g1 <= 20 -> Plant.drawOrganicPlant frameCount g1 = []).
Proof.
  intros Hg. unfold Plant.drawOrganicPlant. cbv zeta.
  split; [| split; [| split]].
  - split_growth; cbn; intros c Hc;
      repeat (destruct Hc as [<- | Hc]; [cbn; tauto |]); destruct Hc.
  - split_growth; cbn; lia.
  - intros x y g Hin. apply drawFlower_blooms.
    revert Hin. split_growth; cbn; intros Hin;
      repeat (destruct Hin as [E | Hin]; [inversion E; subst; lra |]);
      destruct Hin.
  - intros H. split_growth. reflexivity.
Qed.

Lemma plant_only_gains_parts_witness :
  (List.length (Plant.drawOrganicPlant 0 15)
   <= List.length (Plant.drawOrganicPlant 0 200) <= 9)%nat /\
  Plant.drawOrganicPlant 0 15 = [].
Proof.
  pose proof (plant_only_gains_parts 0 15 200 ltac:(lra)) as (_ & H1 & _ & H2).
  split; [exact H1 | apply H2; lra].
Defined.

(** X26. Leaves are drawn yellow exactly when the plant grows slowly.
    In a run from the initial state with at least one frame, the leaf
    colour is the yellow (200, 180, 50) exactly when the growth rate is
    below 50; before the first frame the leaves are green although the
    rate is 0. *)
Theorem leaves_yellow_iff_slow (evs : list Event) :
  In Tick evs ->
  (Plant.leafColor (run evs state) = (200, 180, 50)
   <-> growthRate (run evs state) < 50) /\
  Plant.leafColor state = (100, 200, 100).
Proof.
  intros Hin. split; [| reflexivity].
  pose proof (run_tick_limitingFactor evs state Hin) as Hn.
  unfold Plant.leafColor. cbv zeta.
  destruct (limitingFactor (run evs state)); [congruence | | |];
    destruct (Rlt_dec (growthRate (run evs state)) 50);
    split; intros H; try reflexivity; try assumption; try lra;
    inversion H; lra.
Qed.

Lemma leaves_yellow_iff_slow_witness :
  Plant.leafColor (run [Tick] state) = (200, 180, 50)
  <-> growthRate (run [Tick] state) < 50.
Proof.
  apply (proj1 (leaves_yellow_iff_slow [Tick] (or_introl eq_refl))).
Defined.










(** * The mobile panels *)

Lemma click_tidy (p : Panels.Panels) (c : Panels.Click) :
  tidy (Panels.click p c).
Proof.
  destruct p as [[] [] [] []]; destruct c; cbn; repeat split.
Qed.

Lemma clicks_tidy (cs : list Panels.Click) (p : Panels.Panels) :
  tidy p -> tidy (fold_left Panels.click cs p).
Proof.
  revert p. induction cs as [| c cs IH]; intros p Hp; [exact Hp |].
  cbn [fold_left]. apply IH, click_tidy.
Qed.

(** X29. The mobile panels.  Whatever the classes were before, after one
    or more clicks on the toggle and close buttons at most one panel is
    open and each toggle button is marked exactly when its panel is open;
    a toggle button opens its panel when it was closed and closes it when
    it was open; and the close button closes both. *)
Theorem panels_mutually_exclusive (p : Panels.Panels) (c : Panels.Click)
    (cs : list Panels.Click) :
  tidy (fold_left Panels.click (c :: cs) p) /\
  Panels.panelEnv (Panels.click p Panels.ToggleEnv)
  = negb (Panels.panelEnv p) /\
  Panels.panelStats (Panels.click p Panels.ToggleStats)
  = negb (Panels.panelStats p) /\
  Panels.panelEnv (Panels.click p Panels.CloseButton) = false /\
  Panels.panelStats (Panels.click p Panels.CloseButton) = false.
Proof.
  split; [cbn [fold_left]; apply clicks_tidy, click_tidy |].
  destruct p as [[] [] [] []]; cbn; repeat split.
Qed.
